(** * GraphK core: gates, nodes, branch selection and pipelines

    A shallow embedding of [core/nodes.py] and [core/pipeline.py].

    Python objects live in a store indexed by references, instance
    attributes in a dictionary per object, and every method is a
    computation over a world made of the object store, the state of the
    process-wide random generator and the log of checker invocations.
    Exceptions are results of their own. *)

From Stdlib Require Import ZArith Lia.
From stdpp Require Import gmap strings list.

Set Warnings "-register-all".

Local Open Scope string_scope.
Local Open Scope list_scope.

(** ** Values *)

(** The plain Python values that contexts, identifiers and weights are
    made of.  [VCallable] is a callable of no argument. *)
Inductive value : Type :=
  | VNone
  | VBool (b : bool)
  | VInt (z : Z)
  | VStr (s : string)
  | VDict (items : list (string * value))
  | VCallable (f : unit -> value).

(** [Checker = Callable[[Any], bool]] *)
Definition Checker : Type := value -> bool.

(** A [Gate] instance: [self.id] (when given), [self.checkers],
    [self.strategy]. *)
Record gate : Type := mkGate {
  gate_id : option string;
  checkers : list Checker;
  strategy : Z
}.

(** Object references. *)
Definition loc : Type := nat.

(** What an instance attribute of a node can hold. *)
Inductive attr : Type :=
  | AVal (v : value)
  | AGate (g : gate)
  | ANode (l : loc).

(** The concrete class of a node.  [Node] is abstract: a leaf stands for
    a user subclass, given by what its [ping] and [step] produce.  The
    attributes that [BranchNode.__init__] and [Pipeline.__init__] always
    set are kept with the class. *)
Inductive node_class : Type :=
  | IsLeaf (ping_result : bool) (step_outputs : list value)
  | IsBranchNode (_nodes_ : list loc) (_strategy_ : Z)
  | IsPipeline (_nodes_ : list loc) (_running_ : bool).

(** A node object: its instance dictionary and its class. *)
Record node : Type := mkNode {
  dict : gmap string attr;
  cls : node_class
}.

(** ** Exceptions and results *)

Inductive exn : Type :=
  | RuntimeError (msg : string)
  | TypeError (msg : string)
  | AttributeError (msg : string)
  | IndexError (msg : string)
  | ValueError (msg : string)
  | RecursionError
  | SystemError (msg : string).

Inductive result (A : Type) : Type :=
  | Ok (a : A)
  | Raise (e : exn).
Arguments Ok {A} a.
Arguments Raise {A} e.

(** ** The random generator

    [random.choice] belongs to Python's library: the generator is a
    parameter.  [randbelow s n] draws an index below [n] from state [s]
    and gives the next state. *)
Class RandomGen : Type := {
  rng_state : Type;
  randbelow : rng_state -> nat -> nat * rng_state;
  randbelow_lt : forall s n, (0 < n)%nat -> (fst (randbelow s n) < n)%nat
}.

(** ** Worlds and computations *)

Section World.
Context `{RandomGen}.

Record world : Type := mkWorld {
  heap : gmap loc node;      (* the objects *)
  rng : rng_state;           (* the [random] module's hidden generator *)
  calls : list nat           (* positions of the checkers invoked so far *)
}.

Definition M (A : Type) : Type := world -> result A * world.

Definition ret {A} (a : A) : M A := fun w => (Ok a, w).

Definition raise {A} (e : exn) : M A := fun w => (Raise e, w).

Definition bind {A B} (m : M A) (k : A -> M B) : M B :=
  fun w =>
    match m w with
    | (Ok a, w') => k a w'
    | (Raise e, w') => (Raise e, w')
    end.

(** A call [func(context)] of the checker at position [i]. *)
Definition invoke (i : nat) (func : Checker) (context : value) : M bool :=
  fun w => (Ok (func context), mkWorld (heap w) (rng w) (calls w ++ [i])).

(** Reading an object of the store.  A Python reference never dangles:
    a reference without an object only arises in an ill-formed store. *)
Definition deref (l : loc) : M node :=
  fun w =>
    match heap w !! l with
    | Some n => (Ok n, w)
    | None => (Raise (SystemError "dangling reference"), w)
    end.

(** Overwriting an object of the store. *)
Definition store (l : loc) (n : node) : M unit :=
  fun w => (Ok tt, mkWorld (<[l := n]> (heap w)) (rng w) (calls w)).

(** [random.choice(seq)]: an [IndexError] on an empty sequence, else
    [seq[randbelow(len(seq))]]. *)
Definition random_choice {A} (seq : list A) : M A :=
  fun w =>
    match seq with
    | [] => (Raise (IndexError "Cannot choose from an empty sequence"), w)
    | _ :: _ =>
      let '(i, s') := randbelow (rng w) (length seq) in
      match seq !! i with
      | Some x => (Ok x, mkWorld (heap w) s' (calls w))
      | None => (Raise (IndexError "list index out of range"),
                 mkWorld (heap w) s' (calls w))
      end
    end.
End World.

Declare Scope py_scope.
Delimit Scope py_scope with py.
Notation "x <- m ;; k" := (bind m (fun x => k))
  (at level 100, m at next level, right associativity) : py_scope.
Local Open Scope py_scope.

(** ** Python built-ins used by the code *)

Section Builtins.
Context `{RandomGen}.

(** Python's [all]: pulls the items of a generator, here a list of
    suspended computations, until one is false. *)
Fixpoint py_all (it : list (M bool)) : M bool :=
  match it with
  | [] => ret true
  | m :: it' => x <- m ;; if x then py_all it' else ret false
  end.

(** Python's [any]: pulls items until one is true. *)
Fixpoint py_any (it : list (M bool)) : M bool :=
  match it with
  | [] => ret false
  | m :: it' => x <- m ;; if x then ret true else py_any it'
  end.

(** The integer behind a number: [bool] is a subclass of [int]. *)
Definition as_number (a : attr) : option Z :=
  match a with
  | AVal (VInt z) => Some z
  | AVal (VBool b) => Some (if b then 1 else 0)%Z
  | _ => None
  end.

(** [a > b]: numbers by value, strings in lexicographic order, a
    [TypeError] for what Python does not order. *)
Definition py_gt (a b : attr) : M bool :=
  match as_number a, as_number b with
  | Some x, Some y => ret (y <? x)%Z
  | _, _ =>
    match a, b with
    | AVal (VStr s), AVal (VStr t) =>
      ret (match String.compare s t with Gt => true | _ => false end)
    | _, _ => raise (TypeError "'>' not supported between instances")
    end
  end.

(** The loop of [max(iterable, key=...)]: a later item replaces the
    current maximum only when its key is strictly greater. *)
Fixpoint max_loop {A} (key : A -> M attr) (items : list A)
         (maxitem : A) (maxval : attr) : M A :=
  match items with
  | [] => ret maxitem
  | item :: items' =>
    val <- key item ;;
    greater <- py_gt val maxval ;;
    if greater then max_loop key items' item val
    else max_loop key items' maxitem maxval
  end.

(** [max(iterable, key=key)] *)
Definition py_max {A} (key : A -> M attr) (items : list A) : M A :=
  match items with
  | [] => raise (ValueError "max() arg is an empty sequence")
  | item :: items' => val <- key item ;; max_loop key items' item val
  end.

(** [getattr(obj, name, default)] on a node object.  The names that the
    code asks for ([_condition_], [_weight_]) are looked up in the
    instance dictionary: no class of the source defines them. *)
Definition getattr (obj : loc) (name : string) (default : attr) : M attr :=
  n <- deref obj ;;
  ret (match dict n !! name with
       | Some a => a
       | None => default
       end).

(** [obj.name] on a node object. *)
Definition getattr_strict (obj : loc) (name : string) : M attr :=
  n <- deref obj ;;
  match dict n !! name with
  | Some a => ret a
  | None => raise (AttributeError name)
  end.

(** [f()]: only a callable can be called. *)
Definition call0 (f : attr) : M value :=
  match f with
  | AVal (VCallable g) => ret (g tt)
  | _ => raise (TypeError "object is not callable")
  end.

(** [x is None] *)
Definition is_none (a : attr) : bool :=
  match a with
  | AVal VNone => true
  | _ => false
  end.
End Builtins.

(** ** Gate *)

Module Gate.
Definition ALL_MATCH : Z := 1.
Definition ANY_MATCH : Z := 2.
Definition NONE_MATCH : Z := 3.

(** The [checkers] argument of the constructor: one checker, or a list
    or tuple of checkers. *)
Inductive checkers_arg : Type :=
  | OneChecker (c : Checker)
  | ListOrTuple (cs : list Checker).

(** [Gate.__init__(checkers, strategy=ALL_MATCH, *, id=None)] *)
Definition init (cs : checkers_arg) (strategy : Z) (id : option string)
  : gate :=
  mkGate id
         (match cs with
          | ListOrTuple l => l
          | OneChecker c => [c]
          end)
         strategy.

Section Assess.
Context `{RandomGen}.

(** [(func(context) for func in self.checkers)]: a generator, nothing is
    called until an item is pulled; [i] is the position of the first
    checker of [cs] in [self.checkers]. *)
Fixpoint genexp (i : nat) (cs : list Checker) (context : value)
  : list (M bool) :=
  match cs with
  | [] => []
  | func :: cs' => invoke i func context :: genexp (S i) cs' context
  end.

(** [Gate.assess(self, context)] *)
Definition assess (self : gate) (context : value) : M bool :=
  let result := genexp 0 (checkers self) context in
  if (strategy self =? ALL_MATCH)%Z then py_all result
  else if (strategy self =? ANY_MATCH)%Z then py_any result
  else if (strategy self =? NONE_MATCH)%Z then
         b <- py_any result ;; ret (negb b)
  else ret false.
End Assess.
End Gate.

(** ** Node *)

Module Node.

(** The instance dictionary that [Node.__init__] builds: [context]
    always, the named attributes only when they are not [None], and
    then every extra keyword argument. *)
Definition init (context : attr) (id : option attr)
           (condition validation : option gate) (weight : option Z)
           (next : option attr) (kwargs : list (string * attr))
  : gmap string attr :=
  let d : gmap string attr := {[ "context" := context ]} in
  let d := match id with Some v => <["id" := v]> d | None => d end in
  let d := match condition with
           | Some g => <["condition" := AGate g]> d
           | None => d
           end in
  let d := match validation with
           | Some g => <["validation" := AGate g]> d
           | None => d
           end in
  let d := match weight with
           | Some z => <["weight" := AVal (VInt z)]> d
           | None => d
           end in
  let d := match next with Some v => <["next" := v]> d | None => d end in
  foldl (fun d kv => <[fst kv := snd kv]> d) d kwargs.

(** A concrete leaf class: the subclass passes its arguments on to
    [Node.__init__] and supplies [ping] and [step]. *)
Definition leaf (ping_result : bool) (step_outputs : list value)
           (context : attr) (id : option attr)
           (condition validation : option gate) (weight : option Z)
           (next : option attr) (kwargs : list (string * attr)) : node :=
  mkNode (init context id condition validation weight next kwargs)
         (IsLeaf ping_result step_outputs).
End Node.

(** ** BranchNode *)

Module BranchNode.
Definition SELECT_FIRST : Z := 0.
Definition SELECT_RANDOM : Z := 1.
Definition SELECT_BEST : Z := 2.

(** [BranchNode.__init__(nodes, strategy=SELECT_FIRST, *, id=None)] *)
Definition init (nodes : list loc) (strategy : Z) (id : option attr)
  : node :=
  mkNode (Node.init (AVal VNone) id None None None None [])
         (IsBranchNode nodes strategy).

Section Methods.
Context `{RandomGen}.

(** [BranchNode.step(self)] *)
Definition step (self : loc) : M (list value) :=
  raise (RuntimeError "BranchNode.step() is not a valid operation.").

(** [condition.assess(node.context())]: the bound method is looked up
    first, then the argument is evaluated, then the call is made. *)
Definition assess_condition (condition : attr) (node : loc) : M bool :=
  match condition with
  | AGate g =>
    c <- getattr_strict node "context" ;;
    context <- call0 c ;;
    Gate.assess g context
  | _ => raise (AttributeError "assess")
  end.

(** The filtering loop of [select]; [valid_nodes] is the list built so
    far. *)
Fixpoint filter_valid (nodes : list loc) (valid_nodes : list loc)
  : M (list loc) :=
  match nodes with
  | [] => ret valid_nodes
  | node :: nodes' =>
    condition <- getattr node "_condition_" (AVal VNone) ;;
    is_valid <- (if is_none condition then ret true
                 else assess_condition condition node) ;;
    filter_valid nodes'
                 (if is_valid then valid_nodes ++ [node] else valid_nodes)
  end.

(** [lambda n: getattr(n, '_weight_', 0)] *)
Definition weight_key (n : loc) : M attr :=
  getattr n "_weight_" (AVal (VInt 0)).

(** [BranchNode.select(self)] *)
Definition select (self : loc) : M (option loc) :=
  me <- deref self ;;
  match cls me with
  | IsBranchNode nodes strategy =>
    valid_nodes <- filter_valid nodes [] ;;
    match valid_nodes with
    | [] => ret None
    | first :: _ =>
      if (strategy =? SELECT_FIRST)%Z then ret (Some first)
      else if (strategy =? SELECT_RANDOM)%Z then
             chosen <- random_choice valid_nodes ;; ret (Some chosen)
      else if (strategy =? SELECT_BEST)%Z then
             best <- py_max weight_key valid_nodes ;; ret (Some best)
      else ret None
    end
  | _ => raise (AttributeError "select")
  end.
End Methods.
End BranchNode.

(** ** Pipeline *)

Module Pipeline.

(** [Pipeline.__init__(nodes, *, id=None)] *)
Definition init (nodes : list loc) (id : option attr) : node :=
  mkNode (Node.init (AVal VNone) id None None None None [])
         (IsPipeline nodes false).

Section Methods.
Context `{RandomGen}.

(** [Pipeline.step(self)] *)
Definition step (self : loc) : M (list value) :=
  raise (RuntimeError "Pipeline.step() is not a valid operation.").

(** [Pipeline.start(self)]: [self._running_ = True].  Only a Pipeline
    has the method. *)
Definition start (self : loc) : M unit :=
  me <- deref self ;;
  match cls me with
  | IsPipeline nodes _ =>
    store self (mkNode (dict me) (IsPipeline nodes true))
  | _ => raise (AttributeError "start")
  end.

(** [Pipeline.pause(self)]: [self._running_ = False] *)
Definition pause (self : loc) : M unit :=
  me <- deref self ;;
  match cls me with
  | IsPipeline nodes _ =>
    store self (mkNode (dict me) (IsPipeline nodes false))
  | _ => raise (AttributeError "pause")
  end.

(** [self._running_], as [to_dict] reads it for its ["running"] entry. *)
Definition running (self : loc) : M bool :=
  me <- deref self ;;
  match cls me with
  | IsPipeline _ flag => ret flag
  | _ => raise (AttributeError "_running_")
  end.
End Methods.
End Pipeline.

(** ** Dispatch on the class of the receiver *)

Section Dispatch.
Context `{RandomGen}.

(** [node.step()] *)
Definition step (self : loc) : M (list value) :=
  me <- deref self ;;
  match cls me with
  | IsLeaf _ outputs => ret outputs
  | IsBranchNode _ _ => BranchNode.step self
  | IsPipeline _ _ => Pipeline.step self
  end.

(** [node.ping()]: a leaf answers for itself, a branch and a pipeline
    answer [all(node.ping() for node in self._nodes_)].  [depth] is the
    room left on the call stack. *)
Fixpoint ping (depth : nat) (self : loc) : M bool :=
  match depth with
  | O => raise RecursionError
  | S depth' =>
    me <- deref self ;;
    match cls me with
    | IsLeaf answer _ => ret answer
    | IsBranchNode nodes _ => py_all (map (ping depth') nodes)
    | IsPipeline nodes _ => py_all (map (ping depth') nodes)
    end
  end.
End Dispatch.


(** ** Inspection dictionaries: to_dict and info *)

(** What [to_dict] builds: an object put in as it is, a dictionary in
    insertion order, or a list. *)
Inductive descr : Type :=
  | DAttr (a : attr)
  | DDict (items : list (string * descr))
  | DList (items : list descr).

(** Two things [to_dict] prints are outside the objects modelled here:
    what [getattr(c, "id", repr(c))] gives for a checker, and the name of
    the user's class a leaf object was made from. *)
Class Naming : Type := {
  checker_label : Checker -> value;
  leaf_class_name : loc -> string
}.

(** [d[k] = v] on a dictionary kept in insertion order: an existing key
    keeps its place, a new key goes last. *)
Fixpoint dict_set {V} (k : string) (v : V) (d : list (string * V))
  : list (string * V) :=
  match d with
  | [] => [(k, v)]
  | (k', v') :: d' =>
    if decide (k = k') then (k, v) :: d' else (k', v') :: dict_set k v d'
  end.

(** [del d[k]]: [None] stands for the [KeyError] of a missing key. *)
Fixpoint dict_del {V} (k : string) (d : list (string * V))
  : option (list (string * V)) :=
  match d with
  | [] => None
  | (k', v') :: d' =>
    if decide (k = k') then Some d'
    else match dict_del k d' with
         | Some d'' => Some ((k', v') :: d'')
         | None => None
         end
  end.

(** [d.update(other)] *)
Definition dict_update {V} (other d : list (string * V))
  : list (string * V) :=
  foldl (fun d kv => dict_set (fst kv) (snd kv) d) d other.

(** A string put in a dictionary. *)
Definition dstr (s : string) : descr := DAttr (AVal (VStr s)).

(** [type(v).__name__] of a plain value; a callable stands for a
    function. *)
Definition type_name (v : value) : string :=
  match v with
  | VNone => "NoneType"
  | VBool _ => "bool"
  | VInt _ => "int"
  | VStr _ => "str"
  | VDict _ => "dict"
  | VCallable _ => "function"
  end.

Module Inspect.
Section ToDict.
Context `{RandomGen} `{Naming}.

(** [[f(x) for x in l]]: a list comprehension, evaluated in order. *)
Fixpoint list_comp {A B} (f : A -> M B) (l : list A) : M (list B) :=
  match l with
  | [] => ret []
  | x :: l' => y <- f x ;; ys <- list_comp f l' ;; ret (y :: ys)
  end.

(** [Gate.to_dict(self)] *)
Definition Gate_to_dict (self : gate) : descr :=
  DDict [("type", dstr "Gate");
         ("strategy", DAttr (AVal (VInt (strategy self))));
         ("checkers",
          DList (map (fun c => DAttr (AVal (checker_label c)))
                     (checkers self)))].

(** [self.__class__.__name__] of a node object. *)
Definition class_name (l : loc) (n : node) : string :=
  match cls n with
  | IsLeaf _ _ => leaf_class_name l
  | IsBranchNode _ _ => "BranchNode"
  | IsPipeline _ _ => "Pipeline"
  end.

(** [v.to_dict() if hasattr(v, "to_dict") else v]: gates and nodes have
    the method, plain values do not; [call] is the call [l.to_dict()] on
    a node. *)
Definition describe (call : loc -> M descr) (v : attr) : M descr :=
  match v with
  | AGate g => ret (Gate_to_dict g)
  | ANode l => call l
  | AVal _ => ret (DAttr v)
  end.

(** The loop of [Node.to_dict] over the attribute names [keys]. *)
Fixpoint copy_attrs (call : loc -> M descr) (self : loc)
         (keys : list string) (data : list (string * descr))
  : M (list (string * descr)) :=
  match keys with
  | [] => ret data
  | k :: keys' =>
    v <- getattr self k (AVal VNone) ;;
    if is_none v then copy_attrs call self keys' data
    else d <- describe call v ;;
         copy_attrs call self keys' (dict_set k d data)
  end.

(** [n.id if hasattr(n, "id") else n.__class__.__name__] *)
Definition id_or_class_name (n : attr) : M descr :=
  match n with
  | ANode l =>
    o <- deref l ;;
    ret (match dict o !! "id" with
         | Some a => DAttr a
         | None => dstr (class_name l o)
         end)
  | AGate g =>
    ret (match gate_id g with
         | Some s => dstr s
         | None => dstr "Gate"
         end)
  | AVal v => ret (dstr (type_name v))
  end.

(** [Node.to_dict(self)] *)
Definition Node_to_dict (call : loc -> M descr) (self : loc)
  : M (list (string * descr)) :=
  me <- deref self ;;
  context <- getattr_strict self "context" ;;
  let data := [("type", dstr (class_name self me));
               ("context", DAttr context)] in
  data <- copy_attrs call self ["id"; "weight"; "condition"; "validation"]
                     data ;;
  n <- getattr self "next" (AVal VNone) ;;
  if is_none n then ret data
  else name <- id_or_class_name n ;; ret (dict_set "next" name data).

(** [del data["context"]]; the exceptions of this development have no
    [KeyError], a [SystemError] carries its name. *)
Definition del_context (data : list (string * descr))
  : M (list (string * descr)) :=
  match dict_del "context" data with
  | Some data' => ret data'
  | None => raise (SystemError "KeyError: 'context'")
  end.

(** [BranchNode.to_dict(self)] *)
Definition BranchNode_to_dict (call : loc -> M descr) (self : loc)
  : M (list (string * descr)) :=
  data <- Node_to_dict call self ;;
  data <- del_context data ;;
  me <- deref self ;;
  match cls me with
  | IsBranchNode nodes strategy =>
    ds <- list_comp call nodes ;;
    ret (dict_update [("strategy", DAttr (AVal (VInt strategy)));
                      ("nodes", DList ds)] data)
  | _ => raise (AttributeError "_strategy_")
  end.

(** [Pipeline.to_dict(self)] *)
Definition Pipeline_to_dict (call : loc -> M descr) (self : loc)
  : M (list (string * descr)) :=
  data <- Node_to_dict call self ;;
  data <- del_context data ;;
  me <- deref self ;;
  match cls me with
  | IsPipeline nodes running =>
    ds <- list_comp call nodes ;;
    ret (dict_update [("running", DAttr (AVal (VBool running)));
                      ("nodes", DList ds)] data)
  | _ => raise (AttributeError "_running_")
  end.

(** [node.to_dict()]: an instance attribute of that name hides the
    method, else the class of the object chooses; a leaf class inherits
    [Node.to_dict].  [depth] is the room left on the call stack. *)
Fixpoint to_dict (depth : nat) (self : loc) : M descr :=
  match depth with
  | O => raise RecursionError
  | S depth' =>
    me <- deref self ;;
    match dict me !! "to_dict" with
    | Some f => v <- call0 f ;; ret (DAttr (AVal v))
    | None =>
      match cls me with
      | IsLeaf _ _ =>
        data <- Node_to_dict (to_dict depth') self ;; ret (DDict data)
      | IsBranchNode _ _ =>
        data <- BranchNode_to_dict (to_dict depth') self ;; ret (DDict data)
      | IsPipeline _ _ =>
        data <- Pipeline_to_dict (to_dict depth') self ;; ret (DDict data)
      end
    end
  end.

(** [data["type"] = tag] on what [self.to_dict()] returned. *)
Definition set_type (tag : string) (data : descr) : M descr :=
  match data with
  | DDict items => ret (DDict (dict_set "type" (dstr tag) items))
  | DAttr (AVal (VDict items)) =>
    ret (DAttr (AVal (VDict (dict_set "type" (VStr tag) items))))
  | _ => raise (TypeError "object does not support item assignment")
  end.

(** [BranchNode.info(self)] *)
Definition BranchNode_info (depth : nat) (self : loc) : M descr :=
  data <- to_dict depth self ;; set_type "branch" data.

(** [Pipeline.info(self)] *)
Definition Pipeline_info (depth : nat) (self : loc) : M descr :=
  data <- to_dict depth self ;; set_type "pipeline" data.
End ToDict.
End Inspect.

(** * Vocabulary of the properties *)

(** How many items a consumer pulls from a generator of booleans when it
    stops after the first item that satisfies [stop]. *)
Fixpoint pulled (stop : bool -> bool) (items : list bool) : nat :=
  match items with
  | [] => 0
  | b :: items' => if stop b then 1 else S (pulled stop items')
  end.

(** An outcome that settles the assessment under a strategy: a false
    checker under ALL_MATCH, a true one under ANY_MATCH or NONE_MATCH. *)
Definition decides (s : Z) (b : bool) : Prop :=
  (s = Gate.ALL_MATCH /\ b = false) \/
  ((s = Gate.ANY_MATCH \/ s = Gate.NONE_MATCH) /\ b = true).

(** [best] is the earliest item of [items] with the greatest key [k]. *)
Definition earliest_max {A} (k : A -> Z) (items : list A) (best : A) : Prop :=
  exists i,
    items !! i = Some best /\
    (forall j y, items !! j = Some y -> (k y <= k best)%Z) /\
    (forall j y, j < i -> items !! j = Some y -> (k y < k best)%Z).

Section Vocabulary.
Context `{RandomGen}.

(** A computation is [readonly] when it leaves every object as it was and
    when its result and the generator state it leaves depend on the
    objects and on the generator state alone, not on the invocation log.
    With [draws = false] it leaves the generator as it was too. *)
Definition readonly (draws : bool) {A} (m : M A) : Prop :=
  forall w1 w2, heap w1 = heap w2 -> rng w1 = rng w2 ->
    fst (m w1) = fst (m w2) /\
    heap (snd (m w1)) = heap w1 /\
    rng (snd (m w1)) = rng (snd (m w2)) /\
    (draws = false -> rng (snd (m w1)) = rng w1).

(** A node, of any class, whose attributes were set by [Node.__init__]
    from its named arguments alone, whatever they are. *)
Definition plain_node (w : world) (l : loc) : Prop :=
  exists n context id condition validation weight next,
    heap w !! l = Some n /\
    dict n = Node.init context id condition validation weight next [].

(** In world [w], the key that [select] reads on each item of [items] is
    the integer [k]. *)
Definition weights_are (k : loc -> Z) (items : list loc) (w : world)
  : Prop :=
  Forall (fun x => BranchNode.weight_key x w = (Ok (AVal (VInt (k x))), w))
         items.
End Vocabulary.


(** ** Vocabulary of the further properties *)

(** The children of a branch or of a pipeline. *)
Definition members_of (n : node) : option (list loc) :=
  match cls n with
  | IsLeaf _ _ => None
  | IsBranchNode nodes _ => Some nodes
  | IsPipeline nodes _ => Some nodes
  end.

(** The boolean a gate settles on for a context, read off its checkers
    without running anything. *)
Definition gate_verdict (g : gate) (context : value) : bool :=
  if (strategy g =? Gate.ALL_MATCH)%Z then
    forallb (fun c => c context) (checkers g)
  else if (strategy g =? Gate.ANY_MATCH)%Z then
    existsb (fun c => c context) (checkers g)
  else if (strategy g =? Gate.NONE_MATCH)%Z then
    negb (existsb (fun c => c context) (checkers g))
  else false.

(** What the filter of [select] makes of one child in a store: kept
    ([Ok true]), dropped ([Ok false]) or an exception. *)
Definition child_verdict (h : gmap loc node) (l : loc) : result bool :=
  match h !! l with
  | None => Raise (SystemError "dangling reference")
  | Some n =>
    match dict n !! "_condition_" with
    | None => Ok true
    | Some (AVal VNone) => Ok true
    | Some (AGate g) =>
      match dict n !! "context" with
      | None => Raise (AttributeError "context")
      | Some (AVal (VCallable f)) => Ok (gate_verdict g (f tt))
      | Some _ => Raise (TypeError "object is not callable")
      end
    | Some _ => Raise (AttributeError "assess")
    end
  end.

(** The child is kept. *)
Definition passes (h : gmap loc node) (l : loc) : bool :=
  match child_verdict h l with
  | Ok true => true
  | _ => false
  end.

(** The check of the child raises nothing. *)
Definition checkable (h : gmap loc node) (l : loc) : Prop :=
  exists b, child_verdict h l = Ok b.

(** The weight [select] sees on an object whose [_weight_] is an integer
    or is not set. *)
Definition weight_of (h : gmap loc node) (l : loc) : Z :=
  match h !! l with
  | Some n =>
    match dict n !! "_weight_" with
    | Some (AVal (VInt z)) => z
    | _ => 0%Z
    end
  | None => 0%Z
  end.

(** The object is there and its [_weight_] is an integer or is not
    set. *)
Definition integer_weight (h : gmap loc node) (l : loc) : Prop :=
  exists n, h !! l = Some n /\
            (dict n !! "_weight_" = None \/
             exists z, dict n !! "_weight_" = Some (AVal (VInt z))).

(** The names of the parameters of [Node.__init__]: a keyword argument
    of one of these names is bound to the parameter and is no extra
    keyword argument. *)
Definition named_parameters : list string :=
  ["context"; "id"; "condition"; "validation"; "weight"; "next"].


Section MoreVocabulary.
Context `{RandomGen}.

(** A computation that leaves the whole world as it was: the objects,
    the generator and the invocation log. *)
Definition unchanged {A} (m : M A) : Prop := forall w, snd (m w) = w.
End MoreVocabulary.

(** What a dictionary holds under a key. *)
Fixpoint dict_get {V} (k : string) (d : list (string * V)) : option V :=
  match d with
  | [] => None
  | (k', v') :: d' => if decide (k = k') then Some v' else dict_get k d'
  end.

(** The keys [Node.to_dict] can set after ["type"] and ["context"]. *)
Definition attribute_keys : list string :=
  ["id"; "weight"; "condition"; "validation"; "next"].

(** The attributes of the object hold no node and do not hide
    [to_dict], and the object has its [context]: [Node.to_dict] has no
    other object to ask. *)
Definition flat (h : gmap loc node) (l : loc) : Prop :=
  exists n,
    h !! l = Some n /\
    dict n !! "to_dict" = None /\
    is_Some (dict n !! "context") /\
    forall k l', k ∈ attribute_keys -> dict n !! k <> Some (ANode l').

Section InspectVocabulary.
Context `{RandomGen} `{Naming}.

(** How [Node.to_dict] shows the attribute [v] of an object under its
    key: not at all when the attribute is not set or is [None], a gate
    by its own dictionary, a node by what [call] returns for it, a plain
    value as it is.  [before] and [after] are what the dictionary holds
    under the key before and after. *)
Definition shown (call : loc -> M descr) (w : world) (v : option attr)
           (before after : option descr) : Prop :=
  match v with
  | None => after = before
  | Some (AVal VNone) => after = before
  | Some (AVal x) => after = Some (DAttr (AVal x))
  | Some (AGate g) => after = Some (Inspect.Gate_to_dict g)
  | Some (ANode l) => exists d, call l w = (Ok d, w) /\ after = Some d
  end.
End InspectVocabulary.

(** * Concrete objects *)

(** A generator whose state is a counter: it draws the counter reduced
    modulo the bound and moves to the next number. *)
Definition counter_gen : RandomGen :=
  {| rng_state := nat;
     randbelow := fun s n => (s mod n, S s);
     randbelow_lt := fun s n Hn =>
       Nat.mod_upper_bound s n (proj2 (Nat.neq_0_lt_0 n) Hn) |}.

(** A world of the counter generator, nothing invoked yet. *)
Definition fresh_world (h : gmap loc node) (seed : nat)
  : @world counter_gen :=
  @mkWorld counter_gen h seed [].

(** [lambda ctx: False] and [lambda ctx: True] *)
Definition never : Checker := fun _ => false.
Definition always : Checker := fun _ => true.

(** [Gate(never)]: a gate that lets nothing through. *)
Definition closed_gate : gate :=
  Gate.init (Gate.OneChecker never) Gate.ALL_MATCH None.

(** [Gate([never, always])] *)
Definition two_checkers : gate :=
  Gate.init (Gate.ListOrTuple [never; always]) Gate.ALL_MATCH None.

(** [Leaf({}, condition=Gate(never))]: the gate goes through the
    constructor's own [condition] argument. *)
Definition gated_leaf : node :=
  Node.leaf true [] (AVal (VDict [])) None (Some closed_gate) None None
            None [].

(** [Leaf({}, weight=k)] *)
Definition weighted_leaf (k : Z) : node :=
  Node.leaf true [] (AVal (VDict [])) None None None (Some k) None [].

(** [Leaf({})] *)
Definition bare_leaf : node :=
  Node.leaf true [] (AVal (VDict [])) None None None None None [].

(** [Leaf(lambda: {}, _condition_=Gate(never))]: the gate is set as an
    extra keyword argument and the context is a callable. *)
Definition shut_leaf : node :=
  Node.leaf true [] (AVal (VCallable (fun _ => VDict []))) None None None
            None None [("_condition_", AGate closed_gate)].

(** [Leaf({}, _condition_=Gate(never))]: as [shut_leaf] with a mapping
    for context. *)
Definition shut_leaf_mapping : node :=
  Node.leaf true [] (AVal (VDict [])) None None None None None
            [("_condition_", AGate closed_gate)].

(** [Leaf({}, _weight_=k)]: the weight is set as an extra keyword
    argument. *)
Definition keyed_leaf (k : Z) : node :=
  Node.leaf true [] (AVal (VDict [])) None None None None None
            [("_weight_", AVal (VInt k))].

(** One gated child under a SELECT_FIRST branch. *)
Definition gated_branch : gmap loc node :=
  <[1 := gated_leaf]>
  (<[2 := BranchNode.init [1] BranchNode.SELECT_FIRST None]> ∅).

(** Children of weights 3, 7, 7 under a SELECT_BEST branch. *)
Definition weighted_branch : gmap loc node :=
  <[1 := weighted_leaf 3]> (<[2 := weighted_leaf 7]>
  (<[3 := weighted_leaf 7]>
  (<[4 := BranchNode.init [1; 2; 3] BranchNode.SELECT_BEST None]> ∅))).

(** The same with the weights under [_weight_]. *)
Definition keyed_branch : gmap loc node :=
  <[1 := keyed_leaf 3]> (<[2 := keyed_leaf 7]> (<[3 := keyed_leaf 7]>
  (<[4 := BranchNode.init [1; 2; 3] BranchNode.SELECT_BEST None]> ∅))).

(** One shut child under a SELECT_FIRST branch. *)
Definition shut_branch : gmap loc node :=
  <[1 := shut_leaf]>
  (<[2 := BranchNode.init [1] BranchNode.SELECT_FIRST None]> ∅).

(** The same when the child's context is a mapping. *)
Definition shut_branch_mapping : gmap loc node :=
  <[1 := shut_leaf_mapping]>
  (<[2 := BranchNode.init [1] BranchNode.SELECT_FIRST None]> ∅).

(** Two bare children under a branch of strategy [s]; a pipeline over
    the first child; a branch without children. *)
Definition small_graph (s : Z) : gmap loc node :=
  <[1 := bare_leaf]> (<[2 := bare_leaf]>
  (<[3 := BranchNode.init [1; 2] s None]>
  (<[4 := Pipeline.init [1] None]>
  (<[5 := BranchNode.init [] BranchNode.SELECT_FIRST None]> ∅)))).

(** A leaf whose [ping] answers [answer]. *)
Definition probe_leaf (answer : bool) : node :=
  Node.leaf answer [] (AVal (VDict [])) None None None None None [].

(** A pipeline over three leaves, the second of which does not answer
    its [ping]; a branch over the pipeline and the first leaf. *)
Definition probe_graph : gmap loc node :=
  <[1 := probe_leaf true]> (<[2 := probe_leaf false]>
  (<[3 := probe_leaf true]>
  (<[4 := Pipeline.init [1; 2; 3] None]>
  (<[5 := BranchNode.init [1; 3] BranchNode.SELECT_FIRST None]> ∅)))).

(** A pipeline that is its own first member. *)
Definition looping_graph : gmap loc node :=
  <[1 := Pipeline.init [1; 2] None]> (<[2 := bare_leaf]> ∅).

(** [Gate(always)]: a gate that lets everything through. *)
Definition open_gate : gate :=
  Gate.init (Gate.OneChecker always) Gate.ALL_MATCH None.

(** [Leaf(lambda: {}, _condition_=Gate(always))] *)
Definition open_leaf : node :=
  Node.leaf true [] (AVal (VCallable (fun _ => VDict []))) None None None
            None None [("_condition_", AGate open_gate)].

(** A shut child, an open child and a bare child under a branch of
    strategy [s]. *)
Definition gated_graph (s : Z) : gmap loc node :=
  <[1 := shut_leaf]> (<[2 := open_leaf]> (<[3 := bare_leaf]>
  (<[4 := BranchNode.init [1; 2; 3] s None]> ∅))).

(** An open child, then a child whose context is a mapping under a
    gate, then a shut child, under a SELECT_FIRST branch: the check of
    the second child raises. *)
Definition failing_graph : gmap loc node :=
  <[1 := open_leaf]> (<[2 := shut_leaf_mapping]> (<[3 := shut_leaf]>
  (<[4 := BranchNode.init [1; 2; 3] BranchNode.SELECT_FIRST None]> ∅))).

(** Two bare children under a SELECT_RANDOM branch built with [id=42],
    and nothing else. *)
Definition labelled_graph : gmap loc node :=
  <[1 := bare_leaf]> (<[2 := bare_leaf]>
  (<[3 := BranchNode.init [1; 2] BranchNode.SELECT_RANDOM
                          (Some (AVal (VInt 42)))]> ∅)).

(** [Leaf({}, _weight_=None)]: the weight is set, to [None]. *)
Definition unweighted_leaf : node :=
  Node.leaf true [] (AVal (VDict [])) None None None None None
            [("_weight_", AVal VNone)].

(** A child of weight 3 and a child whose weight is [None] under a
    SELECT_BEST branch; the second child alone under another. *)
Definition odd_weights : gmap loc node :=
  <[1 := keyed_leaf 3]> (<[2 := unweighted_leaf]>
  (<[3 := BranchNode.init [1; 2] BranchNode.SELECT_BEST None]>
  (<[4 := BranchNode.init [2] BranchNode.SELECT_BEST None]> ∅))).

(** Names for what [to_dict] prints: every checker prints as
    ["<checker>"], every leaf is of a class called ["Leaf"]. *)
Definition plain_naming : Naming :=
  {| checker_label := fun _ => VStr "<checker>";
     leaf_class_name := fun _ => "Leaf" |}.

(** * Properties *)

(** ** Gate.assess *)

Lemma pulled_le stop items : pulled stop items <= length items.
Proof.
  induction items as [|b items IH]; simpl; [lia|].
  destruct (stop b); lia.
Qed.

Lemma pulled_before stop items i b :
  S i < pulled stop items -> items !! i = Some b -> stop b = false.
Proof.
  revert i. induction items as [|x items IH]; intros i Hlt Hi; simpl in *.
  - lia.
  - destruct (stop x) eqn:Hx; [lia|].
    destruct i as [|i]; simpl in Hi.
    + congruence.
    + apply (IH i); [lia|done].
Qed.

Lemma pulled_early stop items :
  pulled stop items < length items ->
  0 < pulled stop items /\
  exists b, items !! pred (pulled stop items) = Some b /\ stop b = true.
Proof.
  induction items as [|x items IH]; simpl; intros Hlt; [lia|].
  destruct (stop x) eqn:Hx.
  - split; [lia|]. exists x. simpl. done.
  - destruct IH as [Hpos (b & Hb & Hs)]; [lia|].
    split; [lia|]. exists b. split; [|done].
    destruct (pulled stop items) as [|k]; [lia|]. simpl in *. done.
Qed.

Lemma lookup_map_Some {A B} (f : A -> B) (l : list A) i b :
  map f l !! i = Some b <-> exists a, l !! i = Some a /\ b = f a.
Proof.
  revert i. induction l as [|x l IH]; intros [|i]; simpl.
  - split; [done|]. by intros (a & Ha & _).
  - split; [done|]. by intros (a & Ha & _).
  - split.
    + intros [= <-]. by exists x.
    + intros (a & [= <-] & ->). done.
  - apply IH.
Qed.

Section GateProperties.
Context `{RandomGen}.

Lemma world_eta (w : world) : mkWorld (heap w) (rng w) (calls w) = w.
Proof. by destruct w. Qed.

Lemma py_all_genexp i cs context w :
  py_all (Gate.genexp i cs context) w =
  (Ok (forallb (fun c => c context) cs),
   mkWorld (heap w) (rng w)
           (calls w ++ seq i (pulled negb (map (fun c => c context) cs)))).
Proof.
  revert i w. induction cs as [|c cs IH]; intros i w; simpl.
  - unfold ret. by rewrite app_nil_r, world_eta.
  - unfold bind, invoke. destruct (c context); simpl.
    + rewrite IH. simpl. by rewrite <- app_assoc.
    + done.
Qed.

Lemma py_any_genexp i cs context w :
  py_any (Gate.genexp i cs context) w =
  (Ok (existsb (fun c => c context) cs),
   mkWorld (heap w) (rng w)
           (calls w ++ seq i (pulled id (map (fun c => c context) cs)))).
Proof.
  revert i w. induction cs as [|c cs IH]; intros i w; simpl.
  - unfold ret. by rewrite app_nil_r, world_eta.
  - unfold bind, invoke. destruct (c context); simpl.
    + done.
    + rewrite IH. simpl. by rewrite <- app_assoc.
Qed.

(** The value and the invocations of an assessment, in closed form. *)
Lemma assess_closed_form g context w :
  Gate.assess g context w =
  let outcomes := map (fun c => c context) (checkers g) in
  if (strategy g =? Gate.ALL_MATCH)%Z then
    (Ok (forallb (fun c => c context) (checkers g)),
     mkWorld (heap w) (rng w) (calls w ++ seq 0 (pulled negb outcomes)))
  else if (strategy g =? Gate.ANY_MATCH)%Z then
    (Ok (existsb (fun c => c context) (checkers g)),
     mkWorld (heap w) (rng w) (calls w ++ seq 0 (pulled id outcomes)))
  else if (strategy g =? Gate.NONE_MATCH)%Z then
    (Ok (negb (existsb (fun c => c context) (checkers g))),
     mkWorld (heap w) (rng w) (calls w ++ seq 0 (pulled id outcomes)))
  else (Ok false, w).
Proof.
  unfold Gate.assess. simpl.
  destruct (strategy g =? Gate.ALL_MATCH)%Z; [apply py_all_genexp|].
  destruct (strategy g =? Gate.ANY_MATCH)%Z; [apply py_any_genexp|].
  destruct (strategy g =? Gate.NONE_MATCH)%Z; [|done].
  unfold bind. by rewrite py_any_genexp.
Qed.

Lemma forallb_Forall_true (cs : list Checker) context :
  forallb (fun c => c context) cs = true <->
  Forall (fun c => c context = true) cs.
Proof.
  rewrite forallb_forall, Forall_forall.
  split; intros Hall c Hc; apply Hall; by apply list_elem_of_In.
Qed.

Lemma existsb_Exists_true (cs : list Checker) context :
  existsb (fun c => c context) cs = true <->
  Exists (fun c => c context = true) cs.
Proof.
  rewrite existsb_exists, Exists_exists.
  split; intros (c & Hc & Ht); exists c; split; try done;
    by apply list_elem_of_In.
Qed.

(** C3. [assess] always returns a boolean.  Under ALL_MATCH it is true
    iff every checker returns true on the context, under ANY_MATCH iff at
    least one does, under NONE_MATCH iff none does; for any other
    strategy value it is false. *)
Theorem assess_strategy_laws (g : gate) (context : value) (w : world) :
  exists b : bool,
    fst (Gate.assess g context w) = Ok b /\
    (strategy g = Gate.ALL_MATCH ->
     (b = true <-> Forall (fun c => c context = true) (checkers g))) /\
    (strategy g = Gate.ANY_MATCH ->
     (b = true <-> Exists (fun c => c context = true) (checkers g))) /\
    (strategy g = Gate.NONE_MATCH ->
     (b = true <-> ~ Exists (fun c => c context = true) (checkers g))) /\
    (strategy g <> Gate.ALL_MATCH -> strategy g <> Gate.ANY_MATCH ->
     strategy g <> Gate.NONE_MATCH -> b = false).
Proof.
  rewrite assess_closed_form. cbv zeta.
  unfold Gate.ALL_MATCH, Gate.ANY_MATCH, Gate.NONE_MATCH.
  destruct (Z.eqb_spec (strategy g) 1) as [E1|E1].
  { eexists; split; [reflexivity|].
    repeat split; try (intros; lia).
    - intros Hb. by apply forallb_Forall_true.
    - intros Hb. by apply forallb_Forall_true. }
  destruct (Z.eqb_spec (strategy g) 2) as [E2|E2].
  { eexists; split; [reflexivity|].
    repeat split; try (intros; lia).
    - intros Hb. by apply existsb_Exists_true.
    - intros Hb. by apply existsb_Exists_true. }
  destruct (Z.eqb_spec (strategy g) 3) as [E3|E3].
  { eexists; split; [reflexivity|].
    repeat split; try (intros; lia).
    - intros Hb Hex. apply existsb_Exists_true in Hex.
      rewrite Hex in Hb. discriminate.
    - intros Hno. destruct (existsb _ _) eqn:Hex; [|done].
      exfalso. apply Hno. by apply existsb_Exists_true. }
  eexists; split; [reflexivity|].
  repeat split; try (intros; lia); intros; congruence.
Qed.

(** C10. A gate built from an empty list of checkers assesses true under
    ALL_MATCH, false under ANY_MATCH and true under NONE_MATCH, whatever
    the context. *)
Theorem assess_no_checkers (id : option string) (context : value)
        (w : world) :
  fst (Gate.assess (Gate.init (Gate.ListOrTuple []) Gate.ALL_MATCH id)
                   context w) = Ok true /\
  fst (Gate.assess (Gate.init (Gate.ListOrTuple []) Gate.ANY_MATCH id)
                   context w) = Ok false /\
  fst (Gate.assess (Gate.init (Gate.ListOrTuple []) Gate.NONE_MATCH id)
                   context w) = Ok true.
Proof. repeat split. Qed.

(** C7, as the code has it.  The checkers invoked by [assess] are those
    at positions [0 .. k-1], each once and in order: no checker before
    the last one invoked settles the assessment, and when some checker is
    left out ([k] below the number of checkers) the last one invoked
    settled it.  Under a strategy that is none of the three, no checker
    is invoked at all. *)
Theorem assess_invokes_until_decided (g : gate) (context : value)
        (w : world) :
  exists k : nat,
    calls (snd (Gate.assess g context w)) = calls w ++ seq 0 k /\
    k <= length (checkers g) /\
    (forall i c, S i < k -> checkers g !! i = Some c ->
                 ~ decides (strategy g) (c context)) /\
    ((strategy g = Gate.ALL_MATCH \/ strategy g = Gate.ANY_MATCH \/
      strategy g = Gate.NONE_MATCH) ->
     k < length (checkers g) ->
     0 < k /\ exists c, checkers g !! pred k = Some c /\
                        decides (strategy g) (c context)) /\
    (strategy g <> Gate.ALL_MATCH -> strategy g <> Gate.ANY_MATCH ->
     strategy g <> Gate.NONE_MATCH -> k = 0).
Proof.
  rewrite assess_closed_form. cbv zeta.
  set (outcomes := map (fun c => c context) (checkers g)).
  assert (Hlen : length outcomes = length (checkers g))
    by (unfold outcomes; by rewrite length_map).
  assert (Hlook : forall i c, checkers g !! i = Some c ->
                              outcomes !! i = Some (c context)).
  { intros i c Hc. apply lookup_map_Some. by exists c. }
  assert (Hback : forall i b, outcomes !! i = Some b ->
                  exists c, checkers g !! i = Some c /\ b = c context).
  { intros i b Hb. by apply lookup_map_Some in Hb. }
  unfold decides, Gate.ALL_MATCH, Gate.ANY_MATCH, Gate.NONE_MATCH.
  destruct (Z.eqb_spec (strategy g) 1) as [E1|E1].
  { exists (pulled negb outcomes). simpl.
    split; [done|]. split; [rewrite <- Hlen; apply pulled_le|].
    split; [|split; [|intros; lia]].
    - intros i c Hi Hc [[_ Hf]|[Hs _]]; [|lia].
      apply Hlook in Hc.
      pose proof (pulled_before negb outcomes i _ Hi Hc) as Hn.
      rewrite Hf in Hn. discriminate.
    - intros _ Hk. rewrite <- Hlen in Hk.
      destruct (pulled_early _ _ Hk) as [Hpos (b & Hb & Hs)].
      split; [done|]. destruct (Hback _ _ Hb) as (c & Hc & ->).
      exists c. split; [done|]. left. split; [done|].
      by destruct (c context). }
  assert (Hany : forall k, k = pulled id outcomes ->
    (strategy g = 2 \/ strategy g = 3)%Z ->
    k <= length (checkers g) /\
    (forall i c, S i < k -> checkers g !! i = Some c ->
       ~ ((strategy g = 1%Z /\ c context = false) \/
          ((strategy g = 2%Z \/ strategy g = 3%Z) /\ c context = true))) /\
    (k < length (checkers g) ->
     0 < k /\ exists c, checkers g !! pred k = Some c /\
       ((strategy g = 1%Z /\ c context = false) \/
        ((strategy g = 2%Z \/ strategy g = 3%Z) /\ c context = true)))).
  { intros k -> Hs. split; [rewrite <- Hlen; apply pulled_le|]. split.
    - intros i c Hi Hc [[Hs1 _]|[_ Ht]]; [lia|].
      apply Hlook in Hc.
      pose proof (pulled_before id outcomes i _ Hi Hc) as Hn.
      unfold id in Hn. congruence.
    - intros Hk. rewrite <- Hlen in Hk.
      destruct (pulled_early _ _ Hk) as [Hpos (b & Hb & Hst)].
      split; [done|]. destruct (Hback _ _ Hb) as (c & Hc & ->).
      exists c. split; [done|]. right. split; [done|]. done. }
  destruct (Z.eqb_spec (strategy g) 2) as [E2|E2].
  { exists (pulled id outcomes). simpl. split; [done|].
    destruct (Hany _ eq_refl (or_introl E2)) as (Hle & Hbefore & Hearly).
    repeat split; try done; try (intros; lia); by apply Hearly. }
  destruct (Z.eqb_spec (strategy g) 3) as [E3|E3].
  { exists (pulled id outcomes). simpl. split; [done|].
    destruct (Hany _ eq_refl (or_intror E3)) as (Hle & Hbefore & Hearly).
    repeat split; try done; try (intros; lia); by apply Hearly. }
  exists 0. simpl. split; [by rewrite app_nil_r|].
  split; [lia|]. split; [intros; lia|]. split; [intros; lia|done].
Qed.
End GateProperties.

(** ** Reading without writing *)

Section ReadOnly.
Context `{RandomGen}.

Lemma readonly_ret d {A} (a : A) : readonly d (ret a).
Proof. by intros w1 w2 Hh Hr. Qed.

Lemma readonly_raise d {A} (e : exn) : readonly d (raise (A := A) e).
Proof. by intros w1 w2 Hh Hr. Qed.

Lemma readonly_bind d {A B} (m : M A) (k : A -> M B) :
  readonly d m -> (forall a, readonly d (k a)) -> readonly d (bind m k).
Proof.
  intros Hm Hk w1 w2 Hh Hr. unfold bind.
  destruct (Hm w1 w2 Hh Hr) as (Hres & Hh1 & Hr' & Hd).
  destruct (Hm w2 w2 eq_refl eq_refl) as (_ & Hh2 & _ & _).
  destruct (m w1) as [r1 w1'], (m w2) as [r2 w2']; simpl in *. subst r2.
  destruct r1 as [a|e]; simpl; [|done].
  destruct (Hk a w1' w2') as (Ka & Kh1 & Kr & Kd); [congruence|done|].
  repeat split; try congruence. intros Hf. by rewrite Kd, Hd.
Qed.

Lemma readonly_invoke d i func context :
  readonly d (invoke i func context).
Proof. by intros w1 w2 Hh Hr. Qed.

Lemma readonly_deref d l : readonly d (deref l).
Proof.
  intros w1 w2 Hh Hr. unfold deref. rewrite Hh.
  by destruct (heap w2 !! l).
Qed.

(** The one computation that moves the generator. *)
Lemma readonly_random_choice {A} (seq : list A) :
  readonly true (random_choice seq).
Proof.
  intros w1 w2 Hh Hr. unfold random_choice.
  destruct seq as [|x seq]; [done|]. rewrite Hr.
  destruct (randbelow (rng w2) (length (x :: seq))) as [i s'].
  by destruct ((x :: seq) !! i).
Qed.

Lemma readonly_py_all d (it : list (M bool)) :
  Forall (readonly d) it -> readonly d (py_all it).
Proof.
  induction 1 as [|m it Hm _ IH]; simpl; [apply readonly_ret|].
  apply readonly_bind; [done|]. intros [|]; [done|apply readonly_ret].
Qed.

Lemma readonly_py_any d (it : list (M bool)) :
  Forall (readonly d) it -> readonly d (py_any it).
Proof.
  induction 1 as [|m it Hm _ IH]; simpl; [apply readonly_ret|].
  apply readonly_bind; [done|]. intros [|]; [apply readonly_ret|done].
Qed.

Lemma readonly_genexp d i cs context :
  Forall (readonly d) (Gate.genexp i cs context).
Proof.
  revert i. induction cs as [|c cs IH]; intros i; simpl; constructor.
  - apply readonly_invoke.
  - apply IH.
Qed.

Lemma readonly_assess d g context : readonly d (Gate.assess g context).
Proof.
  unfold Gate.assess. cbv zeta.
  destruct (_ =? _)%Z; [apply readonly_py_all, readonly_genexp|].
  destruct (_ =? _)%Z; [apply readonly_py_any, readonly_genexp|].
  destruct (_ =? _)%Z; [|apply readonly_ret].
  apply readonly_bind; [apply readonly_py_any, readonly_genexp|].
  intros b. apply readonly_ret.
Qed.

Lemma readonly_getattr d obj name default :
  readonly d (getattr obj name default).
Proof.
  apply readonly_bind; [apply readonly_deref|]. intros n. apply readonly_ret.
Qed.

Lemma readonly_getattr_strict d obj name :
  readonly d (getattr_strict obj name).
Proof.
  apply readonly_bind; [apply readonly_deref|]. intros n.
  destruct (dict n !! name); [apply readonly_ret|apply readonly_raise].
Qed.

Lemma readonly_call0 d f : readonly d (call0 f).
Proof.
  destruct f as [[]| |]; simpl;
    first [apply readonly_ret | apply readonly_raise].
Qed.

Lemma readonly_py_gt d a b : readonly d (py_gt a b).
Proof.
  unfold py_gt.
  destruct (as_number a), (as_number b); try apply readonly_ret;
    destruct a as [[]| |]; try apply readonly_raise;
    destruct b as [[]| |];
    first [apply readonly_ret | apply readonly_raise].
Qed.

Lemma readonly_max_loop d {A} (key : A -> M attr) items maxitem maxval :
  (forall x, readonly d (key x)) ->
  readonly d (max_loop key items maxitem maxval).
Proof.
  intros Hkey. revert maxitem maxval.
  induction items as [|item items IH]; intros maxitem maxval; simpl.
  - apply readonly_ret.
  - apply readonly_bind; [done|]. intros val.
    apply readonly_bind; [apply readonly_py_gt|]. intros [|]; apply IH.
Qed.

Lemma readonly_py_max d {A} (key : A -> M attr) items :
  (forall x, readonly d (key x)) -> readonly d (py_max key items).
Proof.
  intros Hkey. destruct items as [|item items]; simpl.
  - apply readonly_raise.
  - apply readonly_bind; [done|]. intros val. by apply readonly_max_loop.
Qed.

Lemma readonly_assess_condition d condition node :
  readonly d (BranchNode.assess_condition condition node).
Proof.
  destruct condition as [v|g|l]; simpl; try apply readonly_raise.
  apply readonly_bind; [apply readonly_getattr_strict|]. intros c.
  apply readonly_bind; [apply readonly_call0|]. intros context.
  apply readonly_assess.
Qed.

Lemma readonly_filter_valid d nodes valid_nodes :
  readonly d (BranchNode.filter_valid nodes valid_nodes).
Proof.
  revert valid_nodes.
  induction nodes as [|node nodes IH]; intros valid_nodes; simpl.
  - apply readonly_ret.
  - apply readonly_bind; [apply readonly_getattr|]. intros condition.
    apply readonly_bind.
    + destruct (is_none condition);
        [apply readonly_ret|apply readonly_assess_condition].
    + intros is_valid. apply IH.
Qed.

(** What [select] does once it has read its own children and strategy:
    only SELECT_RANDOM moves the generator. *)
Lemma readonly_select_body nodes strategy :
  readonly (strategy =? BranchNode.SELECT_RANDOM)%Z
    (valid_nodes <- BranchNode.filter_valid nodes [] ;;
     match valid_nodes with
     | [] => ret None
     | first :: _ =>
       if (strategy =? BranchNode.SELECT_FIRST)%Z then ret (Some first)
       else if (strategy =? BranchNode.SELECT_RANDOM)%Z then
              chosen <- random_choice valid_nodes ;; ret (Some chosen)
       else if (strategy =? BranchNode.SELECT_BEST)%Z then
              best <- py_max BranchNode.weight_key valid_nodes ;;
              ret (Some best)
       else ret None
     end).
Proof.
  apply readonly_bind; [apply readonly_filter_valid|].
  intros [|first rest]; [apply readonly_ret|].
  destruct (_ =? BranchNode.SELECT_FIRST)%Z; [apply readonly_ret|].
  destruct (strategy =? BranchNode.SELECT_RANDOM)%Z.
  { apply readonly_bind; [apply readonly_random_choice|].
    intros x. apply readonly_ret. }
  destruct (_ =? _)%Z; [|apply readonly_ret].
  apply readonly_bind.
  - apply readonly_py_max. intros x. apply readonly_getattr.
  - intros x. apply readonly_ret.
Qed.

Lemma readonly_weaken {A} (m : M A) d : readonly d m -> readonly true m.
Proof.
  intros Hm w1 w2 Hh Hr. destruct (Hm w1 w2 Hh Hr) as (? & ? & ? & _).
  done.
Qed.

Lemma readonly_select self : readonly true (BranchNode.select self).
Proof.
  apply readonly_bind; [apply readonly_deref|]. intros me.
  destruct (cls me) as [p o|nodes strategy|nodes r];
    try apply readonly_raise.
  eapply readonly_weaken, readonly_select_body.
Qed.

Lemma readonly_step d self : readonly d (step self).
Proof.
  apply readonly_bind; [apply readonly_deref|]. intros me.
  destruct (cls me); first [apply readonly_ret | apply readonly_raise].
Qed.

Lemma readonly_ping d depth self : readonly d (ping depth self).
Proof.
  revert self. induction depth as [|depth IH]; intros self; simpl.
  - apply readonly_raise.
  - apply readonly_bind; [apply readonly_deref|]. intros me.
    destruct (cls me) as [p o|nodes strategy|nodes r].
    + apply readonly_ret.
    + apply readonly_py_all, Forall_forall. intros m Hm.
      apply list_elem_of_In, in_map_iff in Hm. destruct Hm as (l & <- & _).
      apply IH.
    + apply readonly_py_all, Forall_forall. intros m Hm.
      apply list_elem_of_In, in_map_iff in Hm. destruct Hm as (l & <- & _).
      apply IH.
Qed.

Lemma readonly_heap d {A} (m : M A) w :
  readonly d m -> heap (snd (m w)) = heap w.
Proof. intros Hm. by destruct (Hm w w eq_refl eq_refl) as (_ & ? & _). Qed.
End ReadOnly.

(** ** BranchNode.select *)

Lemma earliest_max_single {A} (k : A -> Z) (x : A) : earliest_max k [x] x.
Proof.
  exists 0. split; [done|]. split.
  - intros j y Hy. apply list_lookup_singleton_Some in Hy as [_ <-]. lia.
  - intros j y Hj. lia.
Qed.

Lemma earliest_max_keep {A} (k : A -> Z) (seen : list A) (m x : A) :
  earliest_max k seen m -> (k x <= k m)%Z -> earliest_max k (seen ++ [x]) m.
Proof.
  intros (i & Hi & Hall & Hbefore) Hle. exists i.
  split; [by apply lookup_app_l_Some|]. split.
  - intros j y Hy. apply lookup_snoc_Some in Hy as [[_ Hy]|[_ <-]].
    + by apply (Hall j).
    + done.
  - intros j y Hj Hy. apply lookup_snoc_Some in Hy as [[_ Hy]|[-> _]].
    + by apply (Hbefore j).
    + apply lookup_lt_Some in Hi. lia.
Qed.

Lemma earliest_max_replace {A} (k : A -> Z) (seen : list A) (m x : A) :
  earliest_max k seen m -> (k m < k x)%Z -> earliest_max k (seen ++ [x]) x.
Proof.
  intros (i & Hi & Hall & Hbefore) Hlt. exists (length seen).
  split; [by apply list_lookup_middle|]. split.
  - intros j y Hy. apply lookup_snoc_Some in Hy as [[_ Hy]|[_ <-]].
    + specialize (Hall j y Hy). lia.
    + lia.
  - intros j y Hj Hy. apply lookup_snoc_Some in Hy as [[_ Hy]|[-> _]].
    + specialize (Hall j y Hy). lia.
    + lia.
Qed.

Section SelectProperties.
Context `{RandomGen}.

Lemma bind_ok {A B} (m : M A) (k : A -> M B) w a w' :
  m w = (Ok a, w') -> bind m k w = k a w'.
Proof. intros Hm. unfold bind. by rewrite Hm. Qed.

Lemma deref_ok l n w : heap w !! l = Some n -> deref l w = (Ok n, w).
Proof. intros Hl. unfold deref. by rewrite Hl. Qed.

Lemma getattr_absent obj name default n w :
  heap w !! obj = Some n -> dict n !! name = None ->
  getattr obj name default w = (Ok default, w).
Proof.
  intros Hobj Hname. unfold getattr.
  rewrite (bind_ok _ _ _ _ _ (deref_ok _ _ _ Hobj)). by rewrite Hname.
Qed.

(** [Node.__init__] without extra keyword arguments sets no attribute
    beyond its six named ones. *)
Lemma init_sets_named_only context id condition validation weight next
      name :
  name <> "context" -> name <> "id" -> name <> "condition" ->
  name <> "validation" -> name <> "weight" -> name <> "next" ->
  Node.init context id condition validation weight next [] !! name = None.
Proof.
  intros. unfold Node.init. simpl.
  destruct id, condition, validation, weight, next; by simplify_map_eq.
Qed.

Lemma plain_node_getattr w l name default :
  plain_node w l ->
  name <> "context" -> name <> "id" -> name <> "condition" ->
  name <> "validation" -> name <> "weight" -> name <> "next" ->
  getattr l name default w = (Ok default, w).
Proof.
  intros (n & c & i & cond & v & wt & nx & Hl & Hd) ? ? ? ? ? ?.
  eapply getattr_absent; [exact Hl|]. rewrite Hd.
  by apply init_sets_named_only.
Qed.

(** No plain node is filtered out, whatever its [condition]. *)
Lemma filter_valid_plain w nodes valid_nodes :
  Forall (plain_node w) nodes ->
  BranchNode.filter_valid nodes valid_nodes w =
  (Ok (valid_nodes ++ nodes), w).
Proof.
  intros Hall. revert valid_nodes.
  induction Hall as [|node nodes Hnode _ IH]; intros valid_nodes; simpl.
  - unfold ret. by rewrite app_nil_r.
  - erewrite bind_ok; [|by apply plain_node_getattr]. simpl.
    unfold bind at 1, ret at 1. rewrite IH. by rewrite <- app_assoc.
Qed.

(** The key of a plain node is the default [0], whatever its [weight]. *)
Lemma weights_are_plain w items :
  Forall (plain_node w) items -> weights_are (fun _ => 0%Z) items w.
Proof.
  intros Hall. unfold weights_are.
  eapply Forall_impl; [exact Hall|]. intros x Hx.
  unfold BranchNode.weight_key. by apply plain_node_getattr.
Qed.

(** [select], once its own object and the outcome of the filter are
    known. *)
Lemma select_of_filter self me nodes strategy valid_nodes w w' :
  heap w !! self = Some me ->
  cls me = IsBranchNode nodes strategy ->
  BranchNode.filter_valid nodes [] w = (Ok valid_nodes, w') ->
  BranchNode.select self w =
  match valid_nodes with
  | [] => (Ok None, w')
  | first :: _ =>
    if (strategy =? BranchNode.SELECT_FIRST)%Z then (Ok (Some first), w')
    else if (strategy =? BranchNode.SELECT_RANDOM)%Z then
           (chosen <- random_choice valid_nodes ;; ret (Some chosen)) w'
    else if (strategy =? BranchNode.SELECT_BEST)%Z then
           (best <- py_max BranchNode.weight_key valid_nodes ;;
            ret (Some best)) w'
    else (Ok None, w')
  end.
Proof.
  intros Hself Hcls Hfilter. unfold BranchNode.select.
  erewrite bind_ok; [|by apply deref_ok]. rewrite Hcls.
  erewrite bind_ok; [|exact Hfilter].
  destruct valid_nodes as [|first rest]; [done|].
  by repeat destruct (_ =? _)%Z.
Qed.

(** Under SELECT_FIRST, [select] returns the first item that the filter
    kept. *)
Lemma select_first_head self me nodes valid_nodes w w' :
  heap w !! self = Some me ->
  cls me = IsBranchNode nodes BranchNode.SELECT_FIRST ->
  BranchNode.filter_valid nodes [] w = (Ok valid_nodes, w') ->
  BranchNode.select self w = (Ok (head valid_nodes), w').
Proof.
  intros Hself Hcls Hfilter.
  rewrite (select_of_filter _ _ _ _ _ _ _ Hself Hcls Hfilter).
  by destruct valid_nodes.
Qed.

(** The loop of [max] over integer keys ends on the earliest item with
    the greatest key. *)
Lemma max_loop_earliest k items seen maxitem w :
  weights_are k items w ->
  earliest_max k seen maxitem ->
  exists best,
    max_loop BranchNode.weight_key items maxitem
             (AVal (VInt (k maxitem))) w = (Ok best, w) /\
    earliest_max k (seen ++ items) best.
Proof.
  intros Hkeys. revert seen maxitem.
  induction Hkeys as [|x items Hx _ IH]; intros seen maxitem Hseen; simpl.
  - exists maxitem. by rewrite app_nil_r.
  - erewrite bind_ok; [|exact Hx].
    erewrite bind_ok; [|reflexivity].
    replace (seen ++ x :: items) with ((seen ++ [x]) ++ items)
      by (by rewrite <- app_assoc).
    destruct (Z.ltb_spec (k maxitem) (k x)) as [Hlt|Hle].
    + apply IH. by eapply earliest_max_replace.
    + apply IH. by apply earliest_max_keep.
Qed.

(** Under SELECT_BEST, when the keys read under [_weight_] are integers,
    [select] returns the earliest valid candidate with the greatest
    key. *)
Lemma select_best_earliest_max self me nodes valid_nodes k w w' :
  heap w !! self = Some me ->
  cls me = IsBranchNode nodes BranchNode.SELECT_BEST ->
  BranchNode.filter_valid nodes [] w = (Ok valid_nodes, w') ->
  valid_nodes <> [] ->
  weights_are k valid_nodes w' ->
  exists best,
    BranchNode.select self w = (Ok (Some best), w') /\
    earliest_max k valid_nodes best.
Proof.
  intros Hself Hcls Hfilter Hne Hkeys.
  rewrite (select_of_filter _ _ _ _ _ _ _ Hself Hcls Hfilter).
  destruct valid_nodes as [|first rest]; [done|]. simpl.
  apply Forall_cons in Hkeys as [Hfirst Hrest].
  destruct (max_loop_earliest k rest [first] first w' Hrest
              (earliest_max_single k first)) as (best & Hloop & Hbest).
  exists best. split; [|done].
  erewrite bind_ok; [done|].
  erewrite bind_ok; [|exact Hfirst]. exact Hloop.
Qed.

(** Under SELECT_RANDOM, [select] returns the valid candidate at the
    position that the generator draws, and moves the generator on. *)
Lemma select_random_draw self me nodes valid_nodes w w' :
  heap w !! self = Some me ->
  cls me = IsBranchNode nodes BranchNode.SELECT_RANDOM ->
  BranchNode.filter_valid nodes [] w = (Ok valid_nodes, w') ->
  valid_nodes <> [] ->
  exists chosen,
    valid_nodes !! fst (randbelow (rng w') (length valid_nodes)) =
      Some chosen /\
    BranchNode.select self w =
      (Ok (Some chosen),
       mkWorld (heap w')
               (snd (randbelow (rng w') (length valid_nodes)))
               (calls w')).
Proof.
  intros Hself Hcls Hfilter Hne.
  rewrite (select_of_filter _ _ _ _ _ _ _ Hself Hcls Hfilter).
  destruct valid_nodes as [|first rest] eqn:Hv; [done|]. rewrite <- Hv.
  assert (0 < length valid_nodes) as Hlen by (subst; simpl; lia).
  pose proof (randbelow_lt (rng w') _ Hlen) as Hdraw.
  apply lookup_lt_is_Some_2 in Hdraw as [chosen Hchosen].
  exists chosen. split; [done|]. simpl.
  unfold bind, random_choice. rewrite Hv at 1.
  destruct (randbelow (rng w') (length valid_nodes)) as [i s'].
  simpl in *. by rewrite Hchosen.
Qed.

(** Under a strategy other than SELECT_RANDOM, calling [select] again
    returns what the first call returned. *)
Lemma select_repeatable self me nodes strategy w :
  heap w !! self = Some me ->
  cls me = IsBranchNode nodes strategy ->
  strategy <> BranchNode.SELECT_RANDOM ->
  fst (BranchNode.select self (snd (BranchNode.select self w))) =
  fst (BranchNode.select self w).
Proof.
  intros Hself Hcls Hs.
  pose proof (readonly_select self) as Hsel.
  apply Hsel.
  - by apply (readonly_heap true).
  - unfold BranchNode.select.
    erewrite bind_ok; [|by apply deref_ok]. rewrite Hcls.
    pose proof (readonly_select_body nodes strategy) as Hbody.
    destruct (Hbody w w eq_refl eq_refl) as (_ & _ & _ & Hkeep).
    apply Hkeep. by apply Z.eqb_neq.
Qed.
End SelectProperties.

Section SelectClaims.
Context `{RandomGen}.

(** C1, the code at the failing inputs.  [select] looks for the gate
    under the attribute [_condition_], the constructor stores it under
    [condition]: children built by the constructor are never filtered
    out, and SELECT_FIRST returns the first child whatever the children's
    condition gates assess. *)
Theorem select_first_ignores_condition (self : loc) (nodes : list loc)
        (id : option attr) (w : world) :
  heap w !! self =
    Some (BranchNode.init nodes BranchNode.SELECT_FIRST id) ->
  Forall (plain_node w) nodes ->
  BranchNode.select self w = (Ok (head nodes), w).
Proof.
  intros Hself Hall.
  apply (select_first_head self _ nodes nodes w w Hself eq_refl).
  by apply (filter_valid_plain w nodes []).
Qed.

(** C2, the code at the failing inputs.  [select] reads the weight under
    the attribute [_weight_], the constructor stores it under [weight]:
    among children built by the constructor every key is [0], and
    SELECT_BEST returns the first child whatever the weights. *)
Theorem select_best_ignores_weight (self : loc) (nodes : list loc)
        (id : option attr) (w : world) :
  heap w !! self =
    Some (BranchNode.init nodes BranchNode.SELECT_BEST id) ->
  Forall (plain_node w) nodes ->
  BranchNode.select self w = (Ok (head nodes), w).
Proof.
  intros Hself Hall.
  pose proof (filter_valid_plain w nodes [] Hall) as Hfilter.
  simpl in Hfilter.
  destruct nodes as [|first rest].
  { by rewrite (select_of_filter _ _ _ _ _ _ _ Hself eq_refl Hfilter). }
  destruct (select_best_earliest_max self _ _ _ (fun _ => 0%Z) w w
              Hself eq_refl Hfilter)
    as (best & Hsel & i & Hi & _ & Hbefore);
    [done|by apply weights_are_plain|].
  rewrite Hsel. destruct i as [|i].
  - simpl in Hi. by injection Hi as ->.
  - specialize (Hbefore 0 first). simpl in Hbefore.
    assert (0 < 0)%Z; [|lia]. apply Hbefore; [lia|done].
Qed.

(** C6. When the filter leaves no valid candidate, [select] returns
    [None], under every strategy, and raises nothing. *)
Theorem select_empty_valid_set (self : loc) (me : node) (nodes : list loc)
        (strategy : Z) (w w' : world) :
  heap w !! self = Some me ->
  cls me = IsBranchNode nodes strategy ->
  BranchNode.filter_valid nodes [] w = (Ok [], w') ->
  BranchNode.select self w = (Ok None, w').
Proof.
  intros Hself Hcls Hfilter.
  by rewrite (select_of_filter _ _ _ _ _ _ _ Hself Hcls Hfilter).
Qed.

(** C9. Under a strategy value that is none of SELECT_FIRST,
    SELECT_RANDOM and SELECT_BEST, [select] returns [None] whatever the
    valid candidates are, and raises nothing. *)
Theorem select_unknown_strategy (self : loc) (me : node)
        (nodes valid_nodes : list loc) (strategy : Z) (w w' : world) :
  heap w !! self = Some me ->
  cls me = IsBranchNode nodes strategy ->
  strategy <> BranchNode.SELECT_FIRST ->
  strategy <> BranchNode.SELECT_RANDOM ->
  strategy <> BranchNode.SELECT_BEST ->
  BranchNode.filter_valid nodes [] w = (Ok valid_nodes, w') ->
  BranchNode.select self w = (Ok None, w').
Proof.
  intros Hself Hcls H0 H1 H2 Hfilter.
  rewrite (select_of_filter _ _ _ _ _ _ _ Hself Hcls Hfilter).
  destruct valid_nodes as [|first rest]; [done|].
  apply Z.eqb_neq in H0, H1, H2. by rewrite H0, H1, H2.
Qed.

(** C5, as the code has it.  [step] on a BranchNode and on a Pipeline
    raises a [RuntimeError] that says the operation is not valid;
    [select] on a BranchNode without children returns [None] and raises
    nothing. *)
Theorem step_raises_select_returns (b p e : loc) (bn pn en : node)
        (nodes members : list loc) (s s' : Z) (r : bool) (w : world) :
  heap w !! b = Some bn -> cls bn = IsBranchNode nodes s ->
  heap w !! p = Some pn -> cls pn = IsPipeline members r ->
  heap w !! e = Some en -> cls en = IsBranchNode [] s' ->
  step b w =
    (Raise (RuntimeError "BranchNode.step() is not a valid operation."),
     w) /\
  step p w =
    (Raise (RuntimeError "Pipeline.step() is not a valid operation."),
     w) /\
  BranchNode.select e w = (Ok None, w).
Proof.
  intros Hb Hbc Hp Hpc He Hec. repeat split.
  - unfold step. erewrite bind_ok; [|by apply deref_ok]. by rewrite Hbc.
  - unfold step. erewrite bind_ok; [|by apply deref_ok]. by rewrite Hpc.
  - by rewrite (select_of_filter e en [] s' [] w w He Hec eq_refl).
Qed.
End SelectClaims.

(** ** Pipeline.start and Pipeline.pause *)

Section PipelineProperties.
Context `{RandomGen}.

Lemma start_writes (p : loc) (pn : node) (members : list loc) (r : bool)
      (w : world) :
  heap w !! p = Some pn -> cls pn = IsPipeline members r ->
  Pipeline.start p w =
  (Ok tt, mkWorld (<[p := mkNode (dict pn) (IsPipeline members true)]>
                     (heap w)) (rng w) (calls w)).
Proof.
  intros Hp Hc. unfold Pipeline.start.
  erewrite bind_ok; [|by apply deref_ok]. by rewrite Hc.
Qed.

Lemma pause_writes (p : loc) (pn : node) (members : list loc) (r : bool)
      (w : world) :
  heap w !! p = Some pn -> cls pn = IsPipeline members r ->
  Pipeline.pause p w =
  (Ok tt, mkWorld (<[p := mkNode (dict pn) (IsPipeline members false)]>
                     (heap w)) (rng w) (calls w)).
Proof.
  intros Hp Hc. unfold Pipeline.pause.
  erewrite bind_ok; [|by apply deref_ok]. by rewrite Hc.
Qed.

(** C4, as the code has it.  [assess], [select], [step] and [ping] leave
    every object as it was.  [start] and [pause] write: they overwrite
    the [_running_] flag kept on the Pipeline object itself, and nothing
    else, so that whoever holds the Pipeline reads the new flag. *)
Theorem only_start_and_pause_write (g : gate) (context : value)
        (self : loc) (depth : nat) (p : loc) (pn : node)
        (members : list loc) (r : bool) (w : world) :
  heap w !! p = Some pn -> cls pn = IsPipeline members r ->
  heap (snd (Gate.assess g context w)) = heap w /\
  heap (snd (BranchNode.select self w)) = heap w /\
  heap (snd (step self w)) = heap w /\
  heap (snd (ping depth self w)) = heap w /\
  heap (snd (Pipeline.start p w)) =
    <[p := mkNode (dict pn) (IsPipeline members true)]> (heap w) /\
  heap (snd (Pipeline.pause p w)) =
    <[p := mkNode (dict pn) (IsPipeline members false)]> (heap w) /\
  fst (Pipeline.running p (snd (Pipeline.start p w))) = Ok true /\
  fst (Pipeline.running p (snd (Pipeline.pause p w))) = Ok false.
Proof.
  intros Hp Hc.
  split; [apply (readonly_heap true), readonly_assess|].
  split; [apply (readonly_heap true), readonly_select|].
  split; [apply (readonly_heap true), readonly_step|].
  split; [apply (readonly_heap true), readonly_ping|].
  rewrite (start_writes p pn members r), (pause_writes p pn members r)
    by done.
  simpl.
  repeat split; unfold Pipeline.running, bind, deref; simpl;
    by rewrite lookup_insert_eq.
Qed.
End PipelineProperties.

(** * The code on concrete objects *)

(** With the weights under [_weight_], SELECT_BEST returns the second
    child, the earliest of the two heaviest. *)
Example select_best_keyed :
  fst (BranchNode.select 4 (fresh_world keyed_branch 0)) = Ok (Some 2).
Proof. reflexivity. Qed.

(** With the gate under [_condition_] and a callable context, the gate
    is assessed and the child is filtered out. *)
Example select_shut :
  BranchNode.select 2 (fresh_world shut_branch 0) =
  (Ok None, @mkWorld counter_gen shut_branch 0 [0]).
Proof. reflexivity. Qed.

(** With the gate under [_condition_] and a mapping for context,
    [node.context()] raises. *)
Example select_shut_mapping :
  fst (BranchNode.select 2 (fresh_world shut_branch_mapping 0)) =
  Raise (TypeError "object is not callable").
Proof. reflexivity. Qed.

(** ** The general statements at concrete objects *)

Section PlainLeaves.
Context `{RandomGen}.

Lemma plain_gated_leaf w l : heap w !! l = Some gated_leaf -> plain_node w l.
Proof. intros Hl. unfold plain_node. by repeat eexists. Qed.

Lemma plain_weighted_leaf w l k :
  heap w !! l = Some (weighted_leaf k) -> plain_node w l.
Proof. intros Hl. unfold plain_node. by repeat eexists. Qed.

Lemma plain_bare_leaf w l : heap w !! l = Some bare_leaf -> plain_node w l.
Proof. intros Hl. unfold plain_node. by repeat eexists. Qed.

End PlainLeaves.

(** The one child carries a gate that assesses false against the child's
    context, and [select] returns that child. *)
Lemma select_first_ignores_condition_witness :
  fst (Gate.assess closed_gate (VDict []) (fresh_world gated_branch 0)) =
    Ok false /\
  Forall (plain_node (fresh_world gated_branch 0)) [1] /\
  BranchNode.select 2 (fresh_world gated_branch 0) =
    (Ok (Some 1), fresh_world gated_branch 0).
Proof.
  assert (Forall (plain_node (fresh_world gated_branch 0)) [1]) as Hplain.
  { constructor; [|constructor]. by apply plain_gated_leaf. }
  split; [reflexivity|]. split; [exact Hplain|].
  apply (select_first_ignores_condition 2 [1] None
           (fresh_world gated_branch 0)); [reflexivity|exact Hplain].
Defined.

(** Children of weights 3, 7 and 7: [select] returns the first. *)
Lemma select_best_ignores_weight_witness :
  Forall (plain_node (fresh_world weighted_branch 0)) [1; 2; 3] /\
  BranchNode.select 4 (fresh_world weighted_branch 0) =
    (Ok (Some 1), fresh_world weighted_branch 0).
Proof.
  assert (Forall (plain_node (fresh_world weighted_branch 0)) [1; 2; 3])
    as Hplain.
  { repeat constructor.
    - by apply (plain_weighted_leaf _ _ 3).
    - by apply (plain_weighted_leaf _ _ 7).
    - by apply (plain_weighted_leaf _ _ 7). }
  split; [exact Hplain|].
  apply (select_best_ignores_weight 4 [1; 2; 3] None
           (fresh_world weighted_branch 0)); [reflexivity|exact Hplain].
Defined.

Lemma select_empty_valid_set_witness :
  BranchNode.filter_valid [1] [] (fresh_world shut_branch 0) =
    (Ok [], @mkWorld counter_gen shut_branch 0 [0]) /\
  BranchNode.select 2 (fresh_world shut_branch 0) =
    (Ok None, @mkWorld counter_gen shut_branch 0 [0]).
Proof.
  split; [reflexivity|].
  apply (select_empty_valid_set 2
           (BranchNode.init [1] BranchNode.SELECT_FIRST None) [1]
           BranchNode.SELECT_FIRST); reflexivity.
Defined.

Lemma select_unknown_strategy_witness :
  BranchNode.filter_valid [1; 2] [] (fresh_world (small_graph 7) 0) =
    (Ok [1; 2], fresh_world (small_graph 7) 0) /\
  BranchNode.select 3 (fresh_world (small_graph 7) 0) =
    (Ok None, fresh_world (small_graph 7) 0).
Proof.
  split; [reflexivity|].
  apply (select_unknown_strategy 3 (BranchNode.init [1; 2] 7 None)
           [1; 2] [1; 2] 7%Z); try reflexivity; discriminate.
Defined.

Lemma step_raises_select_returns_witness :
  step 3 (fresh_world (small_graph 0) 0) =
    (Raise (RuntimeError "BranchNode.step() is not a valid operation."),
     fresh_world (small_graph 0) 0) /\
  step 4 (fresh_world (small_graph 0) 0) =
    (Raise (RuntimeError "Pipeline.step() is not a valid operation."),
     fresh_world (small_graph 0) 0) /\
  BranchNode.select 5 (fresh_world (small_graph 0) 0) =
    (Ok None, fresh_world (small_graph 0) 0).
Proof.
  apply (step_raises_select_returns 3 4 5
           (BranchNode.init [1; 2] 0 None) (Pipeline.init [1] None)
           (BranchNode.init [] BranchNode.SELECT_FIRST None)
           [1; 2] [1] 0%Z BranchNode.SELECT_FIRST false);
    reflexivity.
Defined.

Lemma only_start_and_pause_write_witness :
  heap (snd (Pipeline.start 4 (fresh_world (small_graph 0) 0))) =
    <[4 := mkNode (dict (Pipeline.init [1] None)) (IsPipeline [1] true)]>
      (small_graph 0) /\
  fst (Pipeline.running 4
         (snd (Pipeline.start 4 (fresh_world (small_graph 0) 0)))) =
    Ok true.
Proof.
  pose proof (only_start_and_pause_write closed_gate VNone 3 2 4
                (Pipeline.init [1] None) [1] false
                (fresh_world (small_graph 0) 0) eq_refl eq_refl)
    as (_ & _ & _ & _ & Hstart & _ & Hrun & _).
  split; [exact Hstart|exact Hrun].
Defined.

(** ** Where the code parts from the stated claims *)

(** C4, as stated, fails: [start] changes the Pipeline object, and the
    flag read from that same object goes from false to true. *)
Lemma start_writes_the_template :
  fst (Pipeline.running 4 (fresh_world (small_graph 0) 0)) = Ok false /\
  fst (Pipeline.running 4
         (snd (Pipeline.start 4 (fresh_world (small_graph 0) 0)))) =
    Ok true /\
  heap (snd (Pipeline.start 4 (fresh_world (small_graph 0) 0))) <>
    heap (fresh_world (small_graph 0) 0).
Proof.
  split; [reflexivity|]. split; [reflexivity|].
  intros Heq. apply (f_equal (fun h => h !! 4)) in Heq.
  vm_compute in Heq. discriminate.
Qed.

(** C5, as stated, fails: [select] on a BranchNode without children
    raises nothing, it returns [None]. *)
Lemma select_without_children_returns :
  fst (BranchNode.select 5 (fresh_world (small_graph 0) 0)) = Ok None /\
  ~ (exists e, fst (BranchNode.select 5 (fresh_world (small_graph 0) 0)) =
               Raise e).
Proof.
  split; [reflexivity|]. intros (e & He). vm_compute in He. discriminate.
Qed.

(** C7, as stated, fails: under ALL_MATCH a gate over
    [[never; always]] invokes the first checker only, so the second one
    is not invoked once but never. *)
Lemma assess_short_circuits :
  calls (snd (Gate.assess two_checkers VNone (fresh_world ∅ 0))) = [0] /\
  ~ (forall i, i < length (checkers two_checkers) ->
       count_occ Nat.eq_dec
         (calls (snd (Gate.assess two_checkers VNone (fresh_world ∅ 0))))
         i = 1).
Proof.
  split; [reflexivity|].
  intros Hall. specialize (Hall 1). simpl in Hall.
  assert (1 < 2) as Hlt by lia. apply Hall in Hlt. discriminate.
Qed.

(** C8, as stated, fails.  The claim has the selection accept a seed
    that settles the child.  A branch is built from [nodes], [strategy]
    and [id], and [select] is called on it with nothing more: no seed is
    among these.  Here one branch over the same two candidates is asked
    to select in two worlds that differ in nothing but the state of the
    process-wide generator, which is no argument of the selection: it
    returns child 1 in the one and child 2 in the other.  The second
    world is also the one that the first call leaves, so that two calls
    in a row return different children. *)
Lemma select_random_has_no_seed :
  small_graph 1 !! 3 =
    Some (BranchNode.init [1; 2] BranchNode.SELECT_RANDOM None) /\
  BranchNode.select 3 (fresh_world (small_graph 1) 0) =
    (Ok (Some 1), fresh_world (small_graph 1) 1) /\
  BranchNode.select 3 (fresh_world (small_graph 1) 1) =
    (Ok (Some 2), fresh_world (small_graph 1) 2) /\
  fst (BranchNode.select 3 (fresh_world (small_graph 1) 0)) <>
  fst (BranchNode.select 3 (fresh_world (small_graph 1) 1)).
Proof.
  split; [reflexivity|]. split; [reflexivity|]. split; [reflexivity|].
  intros Heq. vm_compute in Heq. discriminate.
Qed.

(** * Further properties of the code *)

(** ** ping *)

Section PingProperties.
Context `{RandomGen}.

Lemma py_all_unchanged (it : list (M bool)) :
  Forall (fun m => forall w, snd (m w) = w) it ->
  forall w, snd (py_all it w) = w.
Proof.
  induction 1 as [|m it Hm _ IH]; intros w; simpl; [done|].
  unfold bind. specialize (Hm w).
  destruct (m w) as [[[|]|e] w1]; simpl in *; subst; [apply IH|done|done].
Qed.

Lemma ping_unchanged depth self w : snd (ping depth self w) = w.
Proof.
  revert self w. induction depth as [|depth IH]; intros self w; [done|].
  simpl. unfold bind, deref. destruct (heap w !! self) as [me|]; [|done].
  assert (forall nodes w', snd (py_all (map (ping depth) nodes) w') = w')
    as Hall.
  { intros nodes. apply py_all_unchanged, Forall_forall. intros m Hm.
    apply list_elem_of_In, in_map_iff in Hm as (l & <- & _). apply IH. }
  destruct (cls me); [done|apply Hall|apply Hall].
Qed.

Lemma py_all_true (it : list (M bool)) w :
  Forall (fun m => forall w', snd (m w') = w') it ->
  fst (py_all it w) = Ok true <-> Forall (fun m => fst (m w) = Ok true) it.
Proof.
  induction 1 as [|m it Hm _ IH]; simpl.
  - split; [constructor|done].
  - unfold bind. specialize (Hm w).
    destruct (m w) as [[[|]|e] w1] eqn:Hmw; simpl in *; subst w1.
    + rewrite IH. split.
      * intros Hrest. constructor; [by rewrite Hmw|done].
      * intros Hall. by apply Forall_cons in Hall as [_ ?].
    + split; [done|]. intros Hall. apply Forall_cons in Hall as [Hm' _].
      rewrite Hmw in Hm'. done.
    + split; [done|]. intros Hall. apply Forall_cons in Hall as [Hm' _].
      rewrite Hmw in Hm'. done.
Qed.

Lemma py_all_false (it : list (M bool)) w :
  Forall (fun m => forall w', snd (m w') = w') it ->
  fst (py_all it w) = Ok false <->
  exists i m, it !! i = Some m /\ fst (m w) = Ok false /\
              forall j m', j < i -> it !! j = Some m' ->
                           fst (m' w) = Ok true.
Proof.
  induction 1 as [|m it Hm _ IH]; simpl.
  - split; [done|]. by intros (i & m & Hi & _).
  - unfold bind. specialize (Hm w).
    destruct (m w) as [[[|]|e] w1] eqn:Hmw; simpl in *; subst w1.
    + rewrite IH. split.
      * intros (i & m0 & Hi & Hf & Hbefore). exists (S i), m0.
        split; [done|]. split; [done|].
        intros [|j] m' Hj Hm'; simpl in Hm'.
        -- injection Hm' as <-. by rewrite Hmw.
        -- apply (Hbefore j); [lia|done].
      * intros ([|i] & m0 & Hi & Hf & Hbefore); simpl in Hi.
        -- injection Hi as <-. rewrite Hmw in Hf. done.
        -- exists i, m0. split; [done|]. split; [done|].
           intros j m' Hj Hm'. apply (Hbefore (S j)); [lia|done].
    + split; [|done]. intros _. exists 0, m.
      split; [done|]. split; [by rewrite Hmw|]. intros j m' Hj. lia.
    + split; [done|].
      intros ([|i] & m0 & Hi & Hf & Hbefore); simpl in Hi.
      * injection Hi as <-. rewrite Hmw in Hf. done.
      * specialize (Hbefore 0 m). rewrite Hmw in Hbefore.
        assert (Raise e = Ok true) as Habs by (apply Hbefore; [lia|done]).
        done.
Qed.

Lemma ping_composite depth self me ms w :
  heap w !! self = Some me -> members_of me = Some ms ->
  ping (S depth) self w = py_all (map (ping depth) ms) w.
Proof.
  intros Hself Hms. simpl. unfold bind, deref. rewrite Hself.
  unfold members_of in Hms. destruct (cls me); by simplify_eq.
Qed.

Lemma pings_unchanged depth (ms : list loc) :
  Forall (fun m : M bool => forall w', snd (m w') = w')
         (map (ping depth) ms).
Proof.
  apply Forall_forall. intros m Hm.
  apply list_elem_of_In, in_map_iff in Hm as (l & <- & _).
  intros w'. apply ping_unchanged.
Qed.

(** X1. [ping] on a branch or on a pipeline answers true exactly when the
    [ping] of every member answers true, and it changes nothing: no
    object, not the generator, not the invocation log. *)
Theorem ping_true_iff_all_members (depth : nat) (self : loc) (me : node)
        (ms : list loc) (w : world) :
  heap w !! self = Some me -> members_of me = Some ms ->
  snd (ping (S depth) self w) = w /\
  (fst (ping (S depth) self w) = Ok true <->
   Forall (fun m => fst (ping depth m w) = Ok true) ms).
Proof.
  intros Hself Hms. split; [apply ping_unchanged|].
  rewrite (ping_composite depth self me ms w Hself Hms).
  rewrite py_all_true by apply pings_unchanged.
  rewrite Forall_map. done.
Qed.

(** X2. [ping] on a branch or on a pipeline answers false exactly when
    some member answers false and every member before it answers true:
    the members after the first false one are not asked, so that an
    exception one of them would raise does not show. *)
Theorem ping_false_iff_first_failure (depth : nat) (self : loc)
        (me : node) (ms : list loc) (w : world) :
  heap w !! self = Some me -> members_of me = Some ms ->
  fst (ping (S depth) self w) = Ok false <->
  exists i m, ms !! i = Some m /\ fst (ping depth m w) = Ok false /\
              forall j m', j < i -> ms !! j = Some m' ->
                           fst (ping depth m' w) = Ok true.
Proof.
  intros Hself Hms.
  rewrite (ping_composite depth self me ms w Hself Hms).
  rewrite py_all_false by apply pings_unchanged. split.
  - intros (i & m & Hi & Hf & Hbefore).
    apply lookup_map_Some in Hi as (l & Hl & ->).
    exists i, l. split; [done|]. split; [done|].
    intros j l' Hj Hl'. apply (Hbefore j (ping depth l')); [done|].
    apply lookup_map_Some. by exists l'.
  - intros (i & l & Hl & Hf & Hbefore). exists i, (ping depth l).
    split; [apply lookup_map_Some; by exists l|]. split; [done|].
    intros j m' Hj Hm'. apply lookup_map_Some in Hm' as (l' & Hl' & ->).
    by apply (Hbefore j).
Qed.

(** X3. A branch or a pipeline that is its own first member cannot be
    pinged: whatever the room on the stack, [ping] ends in a
    [RecursionError]. *)
Theorem ping_of_a_loop (depth : nat) (self : loc) (me : node)
        (rest : list loc) (w : world) :
  heap w !! self = Some me -> members_of me = Some (self :: rest) ->
  fst (ping depth self w) = Raise RecursionError.
Proof.
  intros Hself Hms. induction depth as [|depth IH]; [done|].
  rewrite (ping_composite depth self me _ w Hself Hms). simpl.
  unfold bind. destruct (ping depth self w) as [r w1]. simpl in IH.
  by subst r.
Qed.
End PingProperties.

(** ** Gate.__init__ and Gate.assess *)

Section MoreGateProperties.
Context `{RandomGen}.

Lemma assess_verdict g context w :
  fst (Gate.assess g context w) = Ok (gate_verdict g context).
Proof.
  rewrite assess_closed_form. cbv zeta. unfold gate_verdict.
  by repeat destruct (_ =? _)%Z.
Qed.

Lemma ok_true_iff (b : bool) : @Ok bool b = Ok true <-> b = true.
Proof. split; [by intros [= ->]|by intros ->]. Qed.

(** X4. A gate made from one checker that is not in a list behaves as
    the gate made from the list of that checker: the checker is invoked
    once, and the gate assesses what the checker returns under ALL_MATCH
    and ANY_MATCH, the opposite under NONE_MATCH. *)
Theorem gate_of_one_checker (c : Checker) (id : option string)
        (context : value) (w : world) :
  (forall s, Gate.init (Gate.OneChecker c) s id =
             Gate.init (Gate.ListOrTuple [c]) s id) /\
  Gate.assess (Gate.init (Gate.OneChecker c) Gate.ALL_MATCH id) context w =
    (Ok (c context), mkWorld (heap w) (rng w) (calls w ++ [0])) /\
  Gate.assess (Gate.init (Gate.OneChecker c) Gate.ANY_MATCH id) context w =
    (Ok (c context), mkWorld (heap w) (rng w) (calls w ++ [0])) /\
  Gate.assess (Gate.init (Gate.OneChecker c) Gate.NONE_MATCH id) context w =
    (Ok (negb (c context)), mkWorld (heap w) (rng w) (calls w ++ [0])).
Proof.
  split; [done|].
  unfold Gate.assess, Gate.init, bind, invoke; simpl.
  unfold bind, invoke, ret. by destruct (c context).
Qed.

(** X5. Over the same checkers and the same context, NONE_MATCH assesses
    the opposite of ANY_MATCH and invokes the same checkers. *)
Theorem none_match_negates_any_match (cs : list Checker)
        (id id' : option string) (context : value) (w : world) :
  exists (b : bool) (w' : world),
    Gate.assess (mkGate id cs Gate.ANY_MATCH) context w = (Ok b, w') /\
    Gate.assess (mkGate id' cs Gate.NONE_MATCH) context w =
      (Ok (negb b), w').
Proof.
  rewrite !assess_closed_form. simpl. by eexists _, _.
Qed.

(** X6. Gates compose over the concatenation of their checkers: under
    ALL_MATCH the gate over [cs1 ++ cs2] is true iff the gates over [cs1]
    and over [cs2] both are, under ANY_MATCH iff one of them is, under
    NONE_MATCH iff both are. *)
Theorem gate_over_concatenation (cs1 cs2 : list Checker)
        (id : option string) (context : value) (w : world) :
  let verdict s cs := fst (Gate.assess (mkGate id cs s) context w) in
  (verdict Gate.ALL_MATCH (cs1 ++ cs2) = Ok true <->
   verdict Gate.ALL_MATCH cs1 = Ok true /\
   verdict Gate.ALL_MATCH cs2 = Ok true) /\
  (verdict Gate.ANY_MATCH (cs1 ++ cs2) = Ok true <->
   verdict Gate.ANY_MATCH cs1 = Ok true \/
   verdict Gate.ANY_MATCH cs2 = Ok true) /\
  (verdict Gate.NONE_MATCH (cs1 ++ cs2) = Ok true <->
   verdict Gate.NONE_MATCH cs1 = Ok true /\
   verdict Gate.NONE_MATCH cs2 = Ok true).
Proof.
  cbv beta zeta. rewrite !assess_verdict. unfold gate_verdict. simpl.
  rewrite forallb_app, existsb_app, !ok_true_iff.
  rewrite andb_true_iff, orb_true_iff, !negb_true_iff, orb_false_iff.
  done.
Qed.
End MoreGateProperties.

(** ** Node.__init__ *)

Lemma update_lookup_absent (kwargs : list (string * attr))
      (d : gmap string attr) (k : string) :
  k ∉ kwargs.*1 ->
  foldl (fun d kv => <[fst kv := snd kv]> d) d kwargs !! k = d !! k.
Proof.
  revert d. induction kwargs as [|[k' v'] kwargs IH]; intros d Hk; [done|].
  simpl in *. apply not_elem_of_cons in Hk as [Hne Hk].
  rewrite IH by done. by rewrite lookup_insert_ne.
Qed.

Lemma update_lookup_present (kwargs : list (string * attr))
      (d : gmap string attr) (k : string) (v : attr) :
  NoDup kwargs.*1 -> (k, v) ∈ kwargs ->
  foldl (fun d kv => <[fst kv := snd kv]> d) d kwargs !! k = Some v.
Proof.
  revert d. induction kwargs as [|[k' v'] kwargs IH]; intros d Hnd Hin.
  - by apply elem_of_nil in Hin.
  - simpl in *. apply NoDup_cons in Hnd as [Hk' Hnd].
    apply elem_of_cons in Hin as [[= <- <-]|Hin].
    + rewrite update_lookup_absent by done. by rewrite lookup_insert_eq.
    + by apply IH.
Qed.

(** X7. What [Node.__init__] is given can be read back: [context]
    always, each other named argument under its own name when it is not
    [None], and no attribute of that name when it is [None].  The extra
    keyword arguments never bear one of these names. *)
Theorem init_stores_named_arguments (context : attr) (id : option attr)
        (condition validation : option gate) (weight : option Z)
        (next : option attr) (kwargs : list (string * attr)) :
  Forall (fun kv => fst kv ∉ named_parameters) kwargs ->
  let d := Node.init context id condition validation weight next kwargs in
  d !! "context" = Some context /\
  d !! "id" = id /\
  d !! "condition" = AGate <$> condition /\
  d !! "validation" = AGate <$> validation /\
  d !! "weight" = (fun z => AVal (VInt z)) <$> weight /\
  d !! "next" = next.
Proof.
  intros Hkw. cbv zeta. unfold Node.init.
  assert (forall k, k ∈ named_parameters -> k ∉ kwargs.*1) as Hout.
  { intros k Hk Hin. apply list_elem_of_fmap in Hin as ([k' v'] & -> & Hin).
    rewrite Forall_forall in Hkw. by apply (Hkw _ Hin). }
  rewrite !update_lookup_absent
    by (apply Hout; unfold named_parameters; set_solver).
  destruct id, condition, validation, weight, next; by simplify_map_eq.
Qed.

(** X8. Every extra keyword argument of [Node.__init__] becomes an
    attribute of its own name, and beyond the named arguments and the
    extra ones no attribute is set. *)
Theorem init_stores_extra_arguments (context : attr) (id : option attr)
        (condition validation : option gate) (weight : option Z)
        (next : option attr) (kwargs : list (string * attr)) :
  NoDup kwargs.*1 ->
  let d := Node.init context id condition validation weight next kwargs in
  (forall k v, (k, v) ∈ kwargs -> d !! k = Some v) /\
  (forall k, k ∉ named_parameters -> k ∉ kwargs.*1 -> d !! k = None).
Proof.
  intros Hnd. cbv zeta. split.
  - intros k v Hin. unfold Node.init. by apply update_lookup_present.
  - intros k Hk Hout. unfold Node.init.
    rewrite update_lookup_absent by done.
    unfold named_parameters in Hk.
    repeat (apply not_elem_of_cons in Hk as [? Hk]).
    by apply (init_sets_named_only context id condition validation weight
                                   next k).
Qed.

(** ** BranchNode.select: the filter *)

Section FilterProperties.
Context `{RandomGen}.

Lemma assess_outcome g context w :
  exists log,
    Gate.assess g context w =
    (Ok (gate_verdict g context),
     mkWorld (heap w) (rng w) (calls w ++ log)).
Proof.
  rewrite assess_closed_form. cbv zeta. unfold gate_verdict.
  repeat destruct (_ =? _)%Z; try by eexists.
  exists []. by rewrite app_nil_r, world_eta.
Qed.

(** The check of one child, followed by whatever comes next. *)
Lemma child_check {B} (l : loc) (k : bool -> M B) (w : world) :
  exists w1,
    heap w1 = heap w /\ rng w1 = rng w /\
    (condition <- getattr l "_condition_" (AVal VNone) ;;
     is_valid <- (if is_none condition then ret true
                  else BranchNode.assess_condition condition l) ;;
     k is_valid) w =
    match child_verdict (heap w) l with
    | Ok b => k b w1
    | Raise e => (Raise e, w1)
    end.
Proof.
  unfold child_verdict, getattr, getattr_strict, bind, deref, ret.
  destruct (heap w !! l) as [n|] eqn:Hl; [|by exists w].
  destruct (dict n !! "_condition_") as [[[]|g|l']|] eqn:Hc; simpl;
    try (by exists w).
  unfold getattr_strict, bind, deref, ret. rewrite Hl.
  destruct (dict n !! "context") as [[[]|g'|l']|] eqn:Hx; simpl;
    try (by exists w).
  destruct (assess_outcome g (f tt) w) as [log Hg]. rewrite Hg.
  by exists (mkWorld (heap w) (rng w) (calls w ++ log)).
Qed.

Lemma filter_valid_checkable nodes valid_nodes w :
  Forall (checkable (heap w)) nodes ->
  exists w',
    heap w' = heap w /\ rng w' = rng w /\
    BranchNode.filter_valid nodes valid_nodes w =
    (Ok (valid_nodes ++ List.filter (passes (heap w)) nodes), w').
Proof.
  intros Hall. revert valid_nodes w Hall.
  induction nodes as [|l nodes IH]; intros valid_nodes w Hall.
  - exists w. simpl. by rewrite app_nil_r.
  - apply Forall_cons in Hall as [[b Hb] Hall]. simpl.
    destruct (child_check l
                (fun is_valid =>
                   BranchNode.filter_valid nodes
                     (if is_valid then valid_nodes ++ [l]
                      else valid_nodes)) w) as (w1 & Hh & Hr & ->).
    rewrite Hb. rewrite <- Hh in Hall.
    destruct (IH (if b then valid_nodes ++ [l] else valid_nodes) w1 Hall)
      as (w' & Hh' & Hr' & ->).
    exists w'. split; [congruence|]. split; [congruence|].
    unfold passes. rewrite Hb, Hh. destruct b; [|done].
    by rewrite <- app_assoc.
Qed.

(** A check that raises does so before any checker is invoked: it
    leaves the world as it found it. *)
Lemma child_check_raises {B} (l : loc) (k : bool -> M B) (w : world) e :
  child_verdict (heap w) l = Raise e ->
  (condition <- getattr l "_condition_" (AVal VNone) ;;
   is_valid <- (if is_none condition then ret true
                else BranchNode.assess_condition condition l) ;;
   k is_valid) w = (Raise e, w).
Proof.
  unfold child_verdict, getattr, getattr_strict, bind, deref, ret.
  destruct (heap w !! l) as [n|] eqn:Hl; [|by intros [= <-]].
  destruct (dict n !! "_condition_") as [[[]|g|l']|] eqn:Hc; simpl;
    try (by intros [= <-]); try done.
  unfold getattr_strict, bind, deref, ret. rewrite Hl.
  destruct (dict n !! "context") as [[[]|g'|l']|] eqn:Hx; simpl;
    try (by intros [= <-]); done.
Qed.

(** The loop over a concatenation is the loop over its first part,
    carried on over the second from the list and the world that the
    first part left. *)
Lemma filter_valid_app pre rest valid_nodes w :
  BranchNode.filter_valid (pre ++ rest) valid_nodes w =
  match BranchNode.filter_valid pre valid_nodes w with
  | (Ok kept, w1) => BranchNode.filter_valid rest kept w1
  | (Raise e, w1) => (Raise e, w1)
  end.
Proof.
  revert valid_nodes w.
  induction pre as [|x pre IH]; intros valid_nodes w; [done|].
  simpl. unfold bind.
  destruct (getattr x "_condition_" (AVal VNone) w) as [[c|e] w1];
    [|done].
  destruct ((if is_none c then ret true
             else BranchNode.assess_condition c x) w1) as [[b|e] w2];
    [|done].
  apply IH.
Qed.

(** The loop stops at the first child whose check raises, in the world
    that the checks of the children before it left. *)
Lemma filter_valid_raises_at pre l post e valid_nodes w :
  Forall (checkable (heap w)) pre ->
  child_verdict (heap w) l = Raise e ->
  exists w1,
    BranchNode.filter_valid pre valid_nodes w =
      (Ok (valid_nodes ++ List.filter (passes (heap w)) pre), w1) /\
    heap w1 = heap w /\ rng w1 = rng w /\
    BranchNode.filter_valid (pre ++ l :: post) valid_nodes w =
      (Raise e, w1).
Proof.
  intros Hpre Hl.
  destruct (filter_valid_checkable pre valid_nodes w Hpre)
    as (w1 & Hh & Hr & Hf).
  exists w1. repeat split; try done.
  rewrite filter_valid_app, Hf. simpl.
  apply child_check_raises. by rewrite Hh.
Qed.

(** The check of a child reads that child and no other object. *)
Lemma child_verdict_local (h1 h2 : gmap loc node) (l : loc) :
  h2 !! l = h1 !! l -> child_verdict h2 l = child_verdict h1 l.
Proof. unfold child_verdict. by intros ->. Qed.

(** What the loop keeps is settled by the children it goes over. *)
Lemma filter_valid_local nodes valid_nodes w1 w2 :
  Forall (fun l => heap w2 !! l = heap w1 !! l) nodes ->
  fst (BranchNode.filter_valid nodes valid_nodes w2) =
  fst (BranchNode.filter_valid nodes valid_nodes w1).
Proof.
  revert valid_nodes w1 w2.
  induction nodes as [|l nodes IH]; intros valid_nodes w1 w2 Hsame;
    [done|].
  apply Forall_cons in Hsame as [Hl Hsame]. simpl.
  destruct (child_check l
              (fun is_valid =>
                 BranchNode.filter_valid nodes
                   (if is_valid then valid_nodes ++ [l]
                    else valid_nodes)) w1) as (w1' & Hh1 & _ & ->).
  destruct (child_check l
              (fun is_valid =>
                 BranchNode.filter_valid nodes
                   (if is_valid then valid_nodes ++ [l]
                    else valid_nodes)) w2) as (w2' & Hh2 & _ & ->).
  rewrite (child_verdict_local _ _ _ Hl).
  destruct (child_verdict (heap w1) l) as [b|e]; [|done].
  apply IH. by rewrite Hh1, Hh2.
Qed.

(** The loop leaves the generator alone. *)
Lemma filter_valid_rng nodes valid_nodes w :
  rng (snd (BranchNode.filter_valid nodes valid_nodes w)) = rng w.
Proof.
  destruct (readonly_filter_valid false nodes valid_nodes w w
              eq_refl eq_refl) as (_ & _ & _ & Hkeep).
  by apply Hkeep.
Qed.

Lemma head_filter_find {A} (f : A -> bool) (l : list A) :
  head (List.filter f l) = List.find f l.
Proof.
  induction l as [|x l IH]; [done|]. simpl. by destruct (f x).
Qed.

(** X9. When the check of no child raises, the valid candidates of
    [select] are exactly the children that pass, in definition order:
    those without a [_condition_] attribute (or with [None] there) and
    those whose [_condition_] gate is true of what their [context()]
    returns.  The filter changes no object and leaves the generator
    alone. *)
Theorem filter_keeps_passing_children (nodes : list loc) (w : world) :
  Forall (checkable (heap w)) nodes ->
  exists w',
    BranchNode.filter_valid nodes [] w =
      (Ok (List.filter (passes (heap w)) nodes), w') /\
    heap w' = heap w /\ rng w' = rng w.
Proof.
  intros Hall.
  destruct (filter_valid_checkable nodes [] w Hall) as (w' & ? & ? & ?).
  by exists w'.
Qed.

(** X10. Under SELECT_FIRST, when the check of no child raises, [select]
    returns the first child in definition order that passes, and [None]
    when no child passes. *)
Theorem select_first_finds_passing (self : loc) (me : node)
        (nodes : list loc) (w : world) :
  heap w !! self = Some me ->
  cls me = IsBranchNode nodes BranchNode.SELECT_FIRST ->
  Forall (checkable (heap w)) nodes ->
  fst (BranchNode.select self w) = Ok (List.find (passes (heap w)) nodes).
Proof.
  intros Hself Hcls Hall.
  destruct (filter_valid_checkable nodes [] w Hall) as (w' & _ & _ & Hf).
  rewrite (select_of_filter _ _ _ _ _ _ _ Hself Hcls Hf).
  rewrite <- head_filter_find. by destruct (List.filter _ nodes).
Qed.

(** X11. Under every strategy, [select] stops at the first child whose
    check raises and raises the same: an [AttributeError] when
    [_condition_] holds something that is no gate, a [TypeError] when
    the child's [context] is a mapping or [None] and so cannot be
    called.  The world it leaves (objects, generator, invocation log) is
    the one that the checks of the children before that child left:
    no checker of a later child has been invoked, and the children
    after it have no part in the outcome. *)
Theorem select_raises_at_first_failing_child (self : loc) (me : node)
        (pre post : list loc) (l : loc) (strategy : Z) (e : exn)
        (w : world) :
  heap w !! self = Some me ->
  cls me = IsBranchNode (pre ++ l :: post) strategy ->
  Forall (checkable (heap w)) pre ->
  child_verdict (heap w) l = Raise e ->
  exists w1,
    BranchNode.filter_valid pre [] w =
      (Ok (List.filter (passes (heap w)) pre), w1) /\
    heap w1 = heap w /\ rng w1 = rng w /\
    BranchNode.select self w = (Raise e, w1).
Proof.
  intros Hself Hcls Hpre Hl.
  destruct (filter_valid_raises_at pre l post e [] w Hpre Hl)
    as (w1 & Hf & Hh & Hr & Hstop).
  exists w1. repeat split; try done.
  unfold BranchNode.select.
  erewrite bind_ok; [|by apply deref_ok]. rewrite Hcls.
  unfold bind. by rewrite Hstop.
Qed.
End FilterProperties.

(** ** BranchNode.select: the choice *)

Section ChoiceProperties.
Context `{RandomGen}.

Lemma bind_inv {A B} (m : M A) (k : A -> M B) w b w' :
  bind m k w = (Ok b, w') ->
  exists a w1, m w = (Ok a, w1) /\ k a w1 = (Ok b, w').
Proof.
  unfold bind. destruct (m w) as [[a|e] w1]; [|done].
  intros Hk. by exists a, w1.
Qed.

Lemma filter_valid_among nodes valid_nodes w valid w' :
  BranchNode.filter_valid nodes valid_nodes w = (Ok valid, w') ->
  exists kept, valid = valid_nodes ++ kept /\
               forall x, x ∈ kept -> x ∈ nodes.
Proof.
  revert valid_nodes w.
  induction nodes as [|l nodes IH]; intros valid_nodes w Hf; simpl in Hf.
  - injection Hf as <- <-. exists []. split; [by rewrite app_nil_r|].
    intros x Hx. by apply elem_of_nil in Hx.
  - destruct (child_check l
                (fun is_valid =>
                   BranchNode.filter_valid nodes
                     (if is_valid then valid_nodes ++ [l]
                      else valid_nodes)) w) as (w1 & _ & _ & Hstep).
    rewrite Hstep in Hf. destruct (child_verdict (heap w) l) as [b|e];
      [|done].
    apply IH in Hf as (kept & -> & Hkept). destruct b.
    + exists (l :: kept). split; [by rewrite <- app_assoc|].
      intros x Hx. apply elem_of_cons in Hx as [->|Hx]; [left|right; auto].
    + exists kept. split; [done|]. intros x Hx. right. auto.
Qed.

Lemma max_loop_among {A} (key : A -> M attr) items maxitem maxval w x w' :
  max_loop key items maxitem maxval w = (Ok x, w') ->
  x = maxitem \/ x ∈ items.
Proof.
  revert maxitem maxval w.
  induction items as [|item items IH]; intros maxitem maxval w Hl;
    simpl in Hl.
  - injection Hl as <- <-. by left.
  - apply bind_inv in Hl as (val & w1 & _ & Hl).
    apply bind_inv in Hl as (greater & w2 & _ & Hl).
    destruct greater; apply IH in Hl as [->|Hx];
      first [by left | right; by left | right; by right].
Qed.

Lemma weight_key_integer w l :
  integer_weight (heap w) l ->
  BranchNode.weight_key l w = (Ok (AVal (VInt (weight_of (heap w) l))), w).
Proof.
  intros (n & Hl & Hw). unfold BranchNode.weight_key, getattr, weight_of.
  erewrite bind_ok; [|by apply deref_ok]. rewrite Hl.
  by destruct Hw as [->|[z ->]].
Qed.

(** X12. Whatever the strategy, the node that [select] returns is one of
    the children of the branch. *)
Theorem select_returns_a_child (self c : loc) (w w' : world) :
  BranchNode.select self w = (Ok (Some c), w') ->
  exists me nodes strategy,
    heap w !! self = Some me /\ cls me = IsBranchNode nodes strategy /\
    c ∈ nodes.
Proof.
  intros Hs. unfold BranchNode.select in Hs.
  apply bind_inv in Hs as (me & w1 & Hd & Hs).
  unfold deref in Hd. destruct (heap w !! self) as [n|] eqn:Hself; [|done].
  injection Hd as -> ->.
  destruct (cls me) as [| nodes strategy |] eqn:Hcls; try done.
  exists me, nodes, strategy. split; [done|]. split; [done|].
  apply bind_inv in Hs as (valid & w2 & Hf & Hs).
  apply filter_valid_among in Hf as (kept & -> & Hkept). simpl in Hs.
  destruct kept as [|first rest]; [done|].
  destruct (_ =? _)%Z.
  { injection Hs as <- <-. apply Hkept. by left. }
  destruct (_ =? _)%Z.
  { apply bind_inv in Hs as (x & w3 & Hr & Hs). injection Hs as <- <-.
    apply Hkept. unfold random_choice in Hr.
    destruct (randbelow _ _) as [i s'].
    destruct ((first :: rest) !! i) as [y|] eqn:Hi; [|done].
    injection Hr as <- <-. by eapply list_elem_of_lookup_2. }
  destruct (_ =? _)%Z; [|done].
  apply bind_inv in Hs as (x & w3 & Hm & Hs). injection Hs as <- <-.
  apply Hkept. unfold py_max in Hm.
  apply bind_inv in Hm as (val & w4 & _ & Hm).
  apply max_loop_among in Hm as [->|Hx]; [by left|by right].
Qed.

(** X13. Under SELECT_BEST, when every valid candidate has an integer
    under [_weight_] or no such attribute, [select] returns the valid
    candidate of greatest weight, the earliest one among equals, with
    weight 0 for a candidate that has none. *)
Theorem select_best_by_weight (self : loc) (me : node)
        (nodes valid_nodes : list loc) (w w' : world) :
  heap w !! self = Some me ->
  cls me = IsBranchNode nodes BranchNode.SELECT_BEST ->
  BranchNode.filter_valid nodes [] w = (Ok valid_nodes, w') ->
  valid_nodes <> [] ->
  Forall (integer_weight (heap w')) valid_nodes ->
  exists best,
    BranchNode.select self w = (Ok (Some best), w') /\
    earliest_max (weight_of (heap w')) valid_nodes best.
Proof.
  intros Hself Hcls Hf Hne Hint.
  apply (select_best_earliest_max self me nodes); try done.
  unfold weights_are. eapply Forall_impl; [exact Hint|].
  intros x Hx. by apply weight_key_integer.
Qed.

(** X14. Under SELECT_BEST a single valid candidate is returned whatever
    it has under [_weight_]: with nothing to compare it to, no weight is
    compared. *)
Theorem select_best_single_candidate (self c : loc) (me n : node)
        (nodes : list loc) (w w' : world) :
  heap w !! self = Some me ->
  cls me = IsBranchNode nodes BranchNode.SELECT_BEST ->
  BranchNode.filter_valid nodes [] w = (Ok [c], w') ->
  heap w' !! c = Some n ->
  BranchNode.select self w = (Ok (Some c), w').
Proof.
  intros Hself Hcls Hf Hc.
  rewrite (select_of_filter _ _ _ _ _ _ _ Hself Hcls Hf). simpl.
  unfold BranchNode.weight_key, getattr.
  erewrite bind_ok; [done|].
  erewrite bind_ok; [done|].
  erewrite bind_ok; [done|by apply deref_ok].
Qed.

(** X15. A weight set to [None] is not the default weight 0: under
    SELECT_BEST, when the second valid candidate has [None] under
    [_weight_], comparing it with the first raises a [TypeError]. *)
Theorem select_best_none_weight (self c1 c2 : loc) (me n1 n2 : node)
        (nodes rest : list loc) (w w' : world) :
  heap w !! self = Some me ->
  cls me = IsBranchNode nodes BranchNode.SELECT_BEST ->
  BranchNode.filter_valid nodes [] w = (Ok (c1 :: c2 :: rest), w') ->
  heap w' !! c1 = Some n1 ->
  heap w' !! c2 = Some n2 ->
  dict n2 !! "_weight_" = Some (AVal VNone) ->
  BranchNode.select self w =
  (Raise (TypeError "'>' not supported between instances"), w').
Proof.
  intros Hself Hcls Hf Hc1 Hc2 Hnone.
  rewrite (select_of_filter _ _ _ _ _ _ _ Hself Hcls Hf). simpl.
  unfold BranchNode.weight_key, getattr, bind, deref, ret.
  by rewrite Hc1, Hc2, Hnone.
Qed.
End ChoiceProperties.

(** ** Pipeline.start and Pipeline.pause, one after the other *)

Section RunningFlag.
Context `{RandomGen}.

(** X16. On a Pipeline the last of [start] and [pause] wins: each undoes
    the other and doing one twice is doing it once; and writing the flag
    the Pipeline already has, as [pause] on a Pipeline that was never
    started, changes nothing at all. *)
Theorem start_pause_last_wins (p : loc) (pn : node) (members : list loc)
        (r : bool) (w : world) :
  heap w !! p = Some pn -> cls pn = IsPipeline members r ->
  snd (Pipeline.pause p (snd (Pipeline.start p w))) =
    snd (Pipeline.pause p w) /\
  snd (Pipeline.start p (snd (Pipeline.pause p w))) =
    snd (Pipeline.start p w) /\
  snd (Pipeline.start p (snd (Pipeline.start p w))) =
    snd (Pipeline.start p w) /\
  snd (Pipeline.pause p (snd (Pipeline.pause p w))) =
    snd (Pipeline.pause p w) /\
  snd ((if r then Pipeline.start p else Pipeline.pause p) w) = w.
Proof.
  intros Hp Hc.
  rewrite (start_writes p pn members r w Hp Hc).
  rewrite (pause_writes p pn members r w Hp Hc). simpl.
  repeat split.
  - erewrite pause_writes; [|simpl; apply lookup_insert_eq|done].
    simpl. by rewrite insert_insert_eq.
  - erewrite start_writes; [|simpl; apply lookup_insert_eq|done].
    simpl. by rewrite insert_insert_eq.
  - erewrite start_writes; [|simpl; apply lookup_insert_eq|done].
    simpl. by rewrite insert_insert_eq.
  - erewrite pause_writes; [|simpl; apply lookup_insert_eq|done].
    simpl. by rewrite insert_insert_eq.
  - assert (mkNode (dict pn) (IsPipeline members r) = pn) as Hsame.
    { destruct pn as [d c]. simpl in *. by subst. }
    destruct r.
    + rewrite (start_writes p pn members true w Hp Hc). simpl.
      rewrite Hsame, insert_id by done. apply world_eta.
    + rewrite (pause_writes p pn members false w Hp Hc). simpl.
      rewrite Hsame, insert_id by done. apply world_eta.
Qed.
End RunningFlag.

(** ** to_dict and info *)

Section InspectUnchanged.
Context `{RandomGen} `{Naming}.

Lemma unchanged_ret {A} (a : A) : unchanged (ret a).
Proof. by intros w. Qed.

Lemma unchanged_raise {A} (e : exn) : unchanged (raise (A := A) e).
Proof. by intros w. Qed.

Lemma unchanged_bind {A B} (m : M A) (k : A -> M B) :
  unchanged m -> (forall a, unchanged (k a)) -> unchanged (bind m k).
Proof.
  intros Hm Hk w. unfold bind. specialize (Hm w).
  destruct (m w) as [[a|e] w1]; simpl in *; subst; [apply Hk|done].
Qed.

Lemma unchanged_deref l : unchanged (deref l).
Proof. intros w. unfold deref. by destruct (heap w !! l). Qed.

Lemma unchanged_getattr obj name default :
  unchanged (getattr obj name default).
Proof.
  apply unchanged_bind; [apply unchanged_deref|].
  intros n. apply unchanged_ret.
Qed.

Lemma unchanged_getattr_strict obj name :
  unchanged (getattr_strict obj name).
Proof.
  apply unchanged_bind; [apply unchanged_deref|]. intros n.
  destruct (dict n !! name); [apply unchanged_ret|apply unchanged_raise].
Qed.

Lemma unchanged_call0 f : unchanged (call0 f).
Proof.
  destruct f as [[]| |]; simpl;
    first [apply unchanged_ret | apply unchanged_raise].
Qed.

Lemma unchanged_list_comp {A B} (f : A -> M B) (l : list A) :
  (forall x, unchanged (f x)) -> unchanged (Inspect.list_comp f l).
Proof.
  intros Hf. induction l as [|x l IH]; simpl; [apply unchanged_ret|].
  apply unchanged_bind; [done|]. intros y.
  apply unchanged_bind; [done|]. intros ys. apply unchanged_ret.
Qed.

Lemma unchanged_describe call v :
  (forall l, unchanged (call l)) -> unchanged (Inspect.describe call v).
Proof. intros Hc. destruct v; simpl; [apply unchanged_ret..|done]. Qed.

Lemma unchanged_copy_attrs call self keys data :
  (forall l, unchanged (call l)) ->
  unchanged (Inspect.copy_attrs call self keys data).
Proof.
  intros Hc. revert data.
  induction keys as [|k keys IH]; intros data; simpl.
  - apply unchanged_ret.
  - apply unchanged_bind; [apply unchanged_getattr|]. intros v.
    destruct (is_none v); [done|].
    apply unchanged_bind; [by apply unchanged_describe|]. intros d. done.
Qed.

Lemma unchanged_id_or_class_name n : unchanged (Inspect.id_or_class_name n).
Proof.
  destruct n; simpl; try apply unchanged_ret.
  apply unchanged_bind; [apply unchanged_deref|]. intros o.
  apply unchanged_ret.
Qed.

Lemma unchanged_Node_to_dict call self :
  (forall l, unchanged (call l)) ->
  unchanged (Inspect.Node_to_dict call self).
Proof.
  intros Hc. unfold Inspect.Node_to_dict.
  apply unchanged_bind; [apply unchanged_deref|]. intros me.
  apply unchanged_bind; [apply unchanged_getattr_strict|]. intros c.
  apply unchanged_bind; [by apply unchanged_copy_attrs|]. intros data.
  apply unchanged_bind; [apply unchanged_getattr|]. intros n.
  destruct (is_none n); [apply unchanged_ret|].
  apply unchanged_bind; [apply unchanged_id_or_class_name|]. intros name.
  apply unchanged_ret.
Qed.

Lemma unchanged_del_context data : unchanged (Inspect.del_context data).
Proof.
  unfold Inspect.del_context.
  destruct (dict_del _ _); [apply unchanged_ret|apply unchanged_raise].
Qed.

Lemma unchanged_BranchNode_to_dict call self :
  (forall l, unchanged (call l)) ->
  unchanged (Inspect.BranchNode_to_dict call self).
Proof.
  intros Hc. unfold Inspect.BranchNode_to_dict.
  apply unchanged_bind; [by apply unchanged_Node_to_dict|]. intros data.
  apply unchanged_bind; [apply unchanged_del_context|]. intros data'.
  apply unchanged_bind; [apply unchanged_deref|]. intros me.
  destruct (cls me); try apply unchanged_raise.
  apply unchanged_bind; [by apply unchanged_list_comp|]. intros ds.
  apply unchanged_ret.
Qed.

Lemma unchanged_Pipeline_to_dict call self :
  (forall l, unchanged (call l)) ->
  unchanged (Inspect.Pipeline_to_dict call self).
Proof.
  intros Hc. unfold Inspect.Pipeline_to_dict.
  apply unchanged_bind; [by apply unchanged_Node_to_dict|]. intros data.
  apply unchanged_bind; [apply unchanged_del_context|]. intros data'.
  apply unchanged_bind; [apply unchanged_deref|]. intros me.
  destruct (cls me); try apply unchanged_raise.
  apply unchanged_bind; [by apply unchanged_list_comp|]. intros ds.
  apply unchanged_ret.
Qed.

Lemma unchanged_to_dict depth self : unchanged (Inspect.to_dict depth self).
Proof.
  revert self. induction depth as [|depth IH]; intros self; simpl.
  - apply unchanged_raise.
  - apply unchanged_bind; [apply unchanged_deref|]. intros me.
    destruct (dict me !! "to_dict").
    { apply unchanged_bind; [apply unchanged_call0|]. intros v.
      apply unchanged_ret. }
    destruct (cls me).
    + apply unchanged_bind; [by apply unchanged_Node_to_dict|].
      intros data. apply unchanged_ret.
    + apply unchanged_bind; [by apply unchanged_BranchNode_to_dict|].
      intros data. apply unchanged_ret.
    + apply unchanged_bind; [by apply unchanged_Pipeline_to_dict|].
      intros data. apply unchanged_ret.
Qed.

Lemma unchanged_set_type tag data : unchanged (Inspect.set_type tag data).
Proof.
  destruct data as [[[]| |]| |]; simpl;
    first [apply unchanged_ret | apply unchanged_raise].
Qed.

(** X17. [to_dict] and [info] only read: whatever they return or raise,
    they change no object, do not touch the generator and invoke no
    checker. *)
Theorem inspection_changes_nothing (depth : nat) (self : loc) (w : world) :
  snd (Inspect.to_dict depth self w) = w /\
  snd (Inspect.BranchNode_info depth self w) = w /\
  snd (Inspect.Pipeline_info depth self w) = w.
Proof.
  split; [apply unchanged_to_dict|].
  split; (apply unchanged_bind; [apply unchanged_to_dict|]);
    intros data; apply unchanged_set_type.
Qed.
End InspectUnchanged.

Lemma dict_set_keys {V} (k : string) (v : V) d x :
  x ∈ (dict_set k v d).*1 -> x = k \/ x ∈ d.*1.
Proof.
  induction d as [|[k' v'] d IH]; simpl.
  - intros Hx. apply list_elem_of_singleton in Hx. by left.
  - case_decide; simpl; intros Hx.
    + apply elem_of_cons in Hx as [->|Hx]; [by left|right; by right].
    + apply elem_of_cons in Hx as [->|Hx]; [right; by left|].
      destruct (IH Hx) as [->|Hd]; [by left|right; by right].
Qed.

Lemma dict_set_fresh {V} (k : string) (v : V) d :
  k ∉ d.*1 -> dict_set k v d = d ++ [(k, v)].
Proof.
  induction d as [|[k' v'] d IH]; simpl; [done|]. intros Hk.
  apply not_elem_of_cons in Hk as [Hne Hk]. case_decide; [done|].
  by rewrite IH.
Qed.

Lemma dict_get_set_eq {V} (k : string) (v : V) d :
  dict_get k (dict_set k v d) = Some v.
Proof.
  induction d as [|[k' v'] d IH]; simpl; [by case_decide|].
  case_decide; simpl; by case_decide.
Qed.

Lemma dict_get_set_ne {V} (k k' : string) (v : V) d :
  k <> k' -> dict_get k (dict_set k' v d) = dict_get k d.
Proof.
  intros Hne. induction d as [|[k0 v0] d IH]; simpl; [by case_decide|].
  case_decide; simpl; repeat case_decide; simplify_eq; done.
Qed.

Section InspectShape.
Context `{RandomGen} `{Naming}.

Lemma ok_unchanged {A} (m : M A) w a w' :
  unchanged m -> m w = (Ok a, w') -> w' = w.
Proof. intros Hm Hw. specialize (Hm w). rewrite Hw in Hm. done. Qed.

Lemma copy_attrs_shape call self keys e1 e2 rest w data' w' :
  Forall (fun k => k <> fst e1 /\ k <> fst e2) keys ->
  Inspect.copy_attrs call self keys (e1 :: e2 :: rest) w = (Ok data', w') ->
  exists rest',
    data' = e1 :: e2 :: rest' /\
    forall x, x ∈ rest'.*1 -> x ∈ keys \/ x ∈ rest.*1.
Proof.
  destruct e1 as [k1 v1], e2 as [k2 v2]. simpl.
  intros Hkeys. revert rest w.
  induction Hkeys as [|k keys [Hk1 Hk2] _ IH]; intros rest w Hc;
    simpl in Hc.
  - injection Hc as <- <-. exists rest. split; [done|]. by right.
  - apply bind_inv in Hc as (v & w1 & _ & Hc).
    destruct (is_none v).
    + apply IH in Hc as (rest' & -> & Hin). exists rest'.
      split; [done|]. intros x Hx.
      destruct (Hin x Hx); [left; by right|by right].
    + apply bind_inv in Hc as (d & w2 & _ & Hc).
      rewrite !decide_False in Hc by done.
      apply IH in Hc as (rest' & -> & Hin). exists rest'.
      split; [done|]. intros x Hx.
      destruct (Hin x Hx) as [?|Hd]; [left; by right|].
      apply dict_set_keys in Hd as [->|?]; [left; by left|by right].
Qed.

Lemma Node_to_dict_shape call self w data w' :
  Inspect.Node_to_dict call self w = (Ok data, w') ->
  exists me context tail,
    heap w !! self = Some me /\ dict me !! "context" = Some context /\
    data = ("type", dstr (Inspect.class_name self me))
           :: ("context", DAttr context) :: tail /\
    forall x, x ∈ tail.*1 -> x ∈ attribute_keys.
Proof.
  unfold Inspect.Node_to_dict. intros Hn.
  apply bind_inv in Hn as (me & w1 & Hd & Hn).
  unfold deref in Hd. destruct (heap w !! self) as [n|] eqn:Hself; [|done].
  injection Hd as -> ->.
  apply bind_inv in Hn as (context & w2 & Hx & Hn).
  unfold getattr_strict, bind, deref in Hx. rewrite Hself in Hx.
  destruct (dict me !! "context") as [c|] eqn:Hc; [|done].
  injection Hx as -> ->.
  apply bind_inv in Hn as (data1 & w3 & Hcopy & Hn).
  apply copy_attrs_shape in Hcopy as (tail & -> & Htail);
    [|repeat constructor; done].
  assert (forall x, x ∈ tail.*1 -> x ∈ attribute_keys) as Hkeys.
  { intros x Hx. destruct (Htail x Hx) as [Hk|Hk].
    - unfold attribute_keys.
      repeat (apply elem_of_cons in Hk as [->|Hk];
              [apply (bool_decide_unpack _); by vm_compute|]).
      by apply elem_of_nil in Hk.
    - by apply elem_of_nil in Hk. }
  apply bind_inv in Hn as (n & w4 & _ & Hn).
  exists me, context. destruct (is_none n).
  - injection Hn as <- <-. by exists tail.
  - apply bind_inv in Hn as (name & w5 & _ & Hn). injection Hn as <- <-.
    exists (dict_set "next" name tail).
    repeat split; try done. intros x Hx.
    apply dict_set_keys in Hx as [->|Hx]; [|by apply Hkeys].
    apply (bool_decide_unpack _). by vm_compute.
Qed.

(** X18. The dictionary of a leaf starts with its class name under
    ["type"] and its context under ["context"], and every other key is
    one of [id], [weight], [condition], [validation] and [next]: the
    extra keyword arguments given to the constructor, [_condition_] and
    [_weight_] among them, are never shown. *)
Theorem leaf_to_dict_keys (depth : nat) (self : loc) (me : node)
        (answer : bool) (outputs : list value) (d : descr) (w w' : world) :
  heap w !! self = Some me ->
  cls me = IsLeaf answer outputs ->
  dict me !! "to_dict" = None ->
  Inspect.to_dict (S depth) self w = (Ok d, w') ->
  exists context tail,
    dict me !! "context" = Some context /\
    d = DDict (("type", dstr (leaf_class_name self))
               :: ("context", DAttr context) :: tail) /\
    forall x, x ∈ tail.*1 -> x ∈ attribute_keys.
Proof.
  intros Hself Hcls Hplain Ht. simpl in Ht.
  erewrite bind_ok in Ht; [|by apply deref_ok].
  rewrite Hplain, Hcls in Ht.
  apply bind_inv in Ht as (data & w1 & Hn & Ht). injection Ht as <- <-.
  apply Node_to_dict_shape in Hn
    as (me' & context & tail & Hme & Hc & -> & Hkeys).
  rewrite Hself in Hme. injection Hme as <-.
  exists context, tail. split; [done|]. split; [|done].
  unfold Inspect.class_name. by rewrite Hcls.
Qed.
End InspectShape.

Lemma dict_set_two_fresh {V} (tail : list (string * V)) (k1 k2 : string)
      (v1 v2 : V) :
  k1 <> k2 -> k1 ∉ tail.*1 -> k2 ∉ tail.*1 ->
  dict_set k2 v2 (dict_set k1 v1 tail) = tail ++ [(k1, v1); (k2, v2)].
Proof.
  intros Hne Hk1 Hk2.
  rewrite (dict_set_fresh k1) by done.
  rewrite (dict_set_fresh k2).
  - by rewrite <- app_assoc.
  - rewrite fmap_app. simpl. intros Hin.
    apply elem_of_app in Hin as [Hin|Hin]; [done|].
    apply list_elem_of_singleton in Hin. done.
Qed.

Section InspectComposite.
Context `{RandomGen} `{Naming}.

Lemma list_comp_inv {A B} (f : A -> M B) (l : list A) w ys w' :
  (forall x, unchanged (f x)) ->
  Inspect.list_comp f l w = (Ok ys, w') ->
  w' = w /\ Forall2 (fun x y => f x w = (Ok y, w)) l ys.
Proof.
  intros Hf. revert ys.
  induction l as [|x l IH]; intros ys Hl; simpl in Hl.
  - injection Hl as <- <-. split; [done|constructor].
  - apply bind_inv in Hl as (y & w1 & Hx & Hl).
    pose proof (ok_unchanged _ _ _ _ (Hf x) Hx) as ->.
    apply bind_inv in Hl as (ys' & w2 & Hrest & Hl).
    injection Hl as <- <-. apply IH in Hrest as [-> Hrest].
    split; [done|]. by constructor.
Qed.

Lemma del_context_after_type t c (tail : list (string * descr)) w :
  Inspect.del_context (("type", t) :: ("context", c) :: tail) w =
  (Ok (("type", t) :: tail), w).
Proof. reflexivity. Qed.

Lemma not_attribute_key (tail : list (string * descr)) (k : string) :
  (forall x, x ∈ tail.*1 -> x ∈ attribute_keys) ->
  k ∉ attribute_keys -> k ∉ tail.*1.
Proof. intros Hkeys Hk Hin. by apply Hk, Hkeys. Qed.

(** X19. The dictionary of a Pipeline has ["type"] first, then what
    [Node.to_dict] shows of [id], [weight], [condition], [validation] and
    [next], then ["running"] with the flag the Pipeline has at that
    time, then ["nodes"] with the dictionary of each member in order; it
    has no ["context"].  [info] returns the same dictionary with
    ["pipeline"] under ["type"]. *)
Theorem pipeline_to_dict_shape (depth : nat) (self : loc) (me : node)
        (members : list loc) (r : bool) (d : descr) (w w' : world) :
  heap w !! self = Some me ->
  cls me = IsPipeline members r ->
  dict me !! "to_dict" = None ->
  Inspect.to_dict (S depth) self w = (Ok d, w') ->
  exists tail ds,
    d = DDict (("type", dstr "Pipeline") :: tail ++
               [("running", DAttr (AVal (VBool r))); ("nodes", DList ds)]) /\
    (forall x, x ∈ tail.*1 -> x ∈ attribute_keys) /\
    Forall2 (fun m dm => Inspect.to_dict depth m w = (Ok dm, w))
            members ds /\
    Inspect.Pipeline_info (S depth) self w =
      (Ok (DDict (("type", dstr "pipeline") :: tail ++
                  [("running", DAttr (AVal (VBool r)));
                   ("nodes", DList ds)])), w).
Proof.
  intros Hself Hcls Hplain Ht.
  pose proof (ok_unchanged _ _ _ _ (unchanged_to_dict _ _) Ht) as ->.
  unfold Inspect.Pipeline_info. rewrite (bind_ok _ _ _ _ _ Ht).
  simpl in Ht. erewrite bind_ok in Ht; [|by apply deref_ok].
  rewrite Hplain, Hcls in Ht.
  apply bind_inv in Ht as (data & w1 & Hp & Ht). injection Ht as <- <-.
  unfold Inspect.Pipeline_to_dict in Hp.
  apply bind_inv in Hp as (data0 & w2 & Hn & Hp).
  pose proof (ok_unchanged _ _ _ _
                (unchanged_Node_to_dict _ _ (unchanged_to_dict depth)) Hn)
    as ->.
  apply Node_to_dict_shape in Hn
    as (me' & context & tail & Hme & Hc & -> & Hkeys).
  rewrite Hself in Hme. injection Hme as <-.
  erewrite bind_ok in Hp; [|apply del_context_after_type].
  erewrite bind_ok in Hp; [|by apply deref_ok]. rewrite Hcls in Hp.
  apply bind_inv in Hp as (ds & w3 & Hl & Hp). injection Hp as <- <-.
  apply list_comp_inv in Hl as [_ Hds]; [|apply unchanged_to_dict].
  exists tail, ds.
  assert (Inspect.class_name self me = "Pipeline") as ->
    by (unfold Inspect.class_name; by rewrite Hcls).
  rewrite dict_set_two_fresh; try done;
    apply not_attribute_key; try done;
    apply (bool_decide_unpack _); by vm_compute.
Qed.

(** X20. The dictionary of a BranchNode has ["type"] first, then what
    [Node.to_dict] shows of [id], [weight], [condition], [validation] and
    [next], then ["strategy"], then ["nodes"] with the dictionary of each
    child in order; it has no ["context"].  [info] returns the same
    dictionary with ["branch"] under ["type"]. *)
Theorem branch_to_dict_shape (depth : nat) (self : loc) (me : node)
        (nodes : list loc) (s : Z) (d : descr) (w w' : world) :
  heap w !! self = Some me ->
  cls me = IsBranchNode nodes s ->
  dict me !! "to_dict" = None ->
  Inspect.to_dict (S depth) self w = (Ok d, w') ->
  exists tail ds,
    d = DDict (("type", dstr "BranchNode") :: tail ++
               [("strategy", DAttr (AVal (VInt s))); ("nodes", DList ds)]) /\
    (forall x, x ∈ tail.*1 -> x ∈ attribute_keys) /\
    Forall2 (fun m dm => Inspect.to_dict depth m w = (Ok dm, w)) nodes ds /\
    Inspect.BranchNode_info (S depth) self w =
      (Ok (DDict (("type", dstr "branch") :: tail ++
                  [("strategy", DAttr (AVal (VInt s)));
                   ("nodes", DList ds)])), w).
Proof.
  intros Hself Hcls Hplain Ht.
  pose proof (ok_unchanged _ _ _ _ (unchanged_to_dict _ _) Ht) as ->.
  unfold Inspect.BranchNode_info. rewrite (bind_ok _ _ _ _ _ Ht).
  simpl in Ht. erewrite bind_ok in Ht; [|by apply deref_ok].
  rewrite Hplain, Hcls in Ht.
  apply bind_inv in Ht as (data & w1 & Hp & Ht). injection Ht as <- <-.
  unfold Inspect.BranchNode_to_dict in Hp.
  apply bind_inv in Hp as (data0 & w2 & Hn & Hp).
  pose proof (ok_unchanged _ _ _ _
                (unchanged_Node_to_dict _ _ (unchanged_to_dict depth)) Hn)
    as ->.
  apply Node_to_dict_shape in Hn
    as (me' & context & tail & Hme & Hc & -> & Hkeys).
  rewrite Hself in Hme. injection Hme as <-.
  erewrite bind_ok in Hp; [|apply del_context_after_type].
  erewrite bind_ok in Hp; [|by apply deref_ok]. rewrite Hcls in Hp.
  apply bind_inv in Hp as (ds & w3 & Hl & Hp). injection Hp as <- <-.
  apply list_comp_inv in Hl as [_ Hds]; [|apply unchanged_to_dict].
  exists tail, ds.
  assert (Inspect.class_name self me = "BranchNode") as ->
    by (unfold Inspect.class_name; by rewrite Hcls).
  rewrite dict_set_two_fresh; try done;
    apply not_attribute_key; try done;
    apply (bool_decide_unpack _); by vm_compute.
Qed.
End InspectComposite.

Section InspectAttributes.
Context `{RandomGen} `{Naming}.

Lemma getattr_ok obj name default n w :
  heap w !! obj = Some n ->
  getattr obj name default w =
  (Ok (match dict n !! name with Some a => a | None => default end), w).
Proof.
  intros Hobj. unfold getattr. by erewrite bind_ok; [|by apply deref_ok].
Qed.

Lemma copy_attrs_get call self me keys data w data' w' k :
  (forall l, unchanged (call l)) ->
  heap w !! self = Some me -> NoDup keys ->
  Inspect.copy_attrs call self keys data w = (Ok data', w') ->
  (k ∉ keys -> dict_get k data' = dict_get k data) /\
  (k ∈ keys ->
   shown call w (dict me !! k) (dict_get k data) (dict_get k data')).
Proof.
  intros Hcall Hself Hnd. revert data.
  induction Hnd as [|k0 keys Hk0 Hnd IH]; intros data Hc; simpl in Hc.
  - injection Hc as <- <-. split; [done|].
    intros Hin. by apply elem_of_nil in Hin.
  - rewrite (bind_ok _ _ _ _ _ (getattr_ok self k0 (AVal VNone) me w Hself))
      in Hc.
    destruct (dict me !! k0) as [a|] eqn:Ha.
    + destruct (is_none a) eqn:Hnone.
      * destruct (IH _ Hc) as [Hout Hin]. split.
        -- intros Hk. apply not_elem_of_cons in Hk as [_ Hk]. auto.
        -- intros Hk. apply elem_of_cons in Hk as [->|Hk]; [|auto].
           rewrite Ha. destruct a as [[]| |]; try done. simpl. auto.
      * apply bind_inv in Hc as (d & w1 & Hd & Hc).
        assert (w1 = w) as ->.
        { eapply ok_unchanged; [|exact Hd].
          by apply unchanged_describe. }
        destruct (IH _ Hc) as [Hout Hin]. split.
        -- intros Hk. apply not_elem_of_cons in Hk as [Hne Hk].
           rewrite Hout by done. by apply dict_get_set_ne.
        -- intros Hk. destruct (decide (k = k0)) as [->|Hne].
           ++ rewrite Ha, Hout, dict_get_set_eq by done.
              destruct a as [[]| |]; simpl in *;
                try (by injection Hd as <-); try done.
              by exists d.
           ++ apply elem_of_cons in Hk as [?|Hk]; [done|].
              specialize (Hin Hk).
              by rewrite dict_get_set_ne in Hin.
    + simpl in Hc. destruct (IH _ Hc) as [Hout Hin]. split.
      * intros Hk. apply not_elem_of_cons in Hk as [_ Hk]. auto.
      * intros Hk. apply elem_of_cons in Hk as [->|Hk]; [|auto].
        rewrite Ha. simpl. auto.
Qed.

(** X21. What the dictionary of a leaf holds under [id], [weight],
    [condition] and [validation] is the attribute of that name: nothing
    when the attribute is not set, the gate's own dictionary for a gate,
    the value itself for a plain value.  So the [condition] and [weight]
    given to the constructor are shown, under the names [select] does
    not read. *)
Theorem leaf_to_dict_attributes (depth : nat) (self : loc) (me : node)
        (answer : bool) (outputs : list value)
        (data : list (string * descr)) (k : string) (w w' : world) :
  heap w !! self = Some me ->
  cls me = IsLeaf answer outputs ->
  dict me !! "to_dict" = None ->
  Inspect.to_dict (S depth) self w = (Ok (DDict data), w') ->
  k ∈ ["id"; "weight"; "condition"; "validation"] ->
  shown (Inspect.to_dict depth) w (dict me !! k) None (dict_get k data).
Proof.
  intros Hself Hcls Hplain Ht Hk. simpl in Ht.
  erewrite bind_ok in Ht; [|by apply deref_ok].
  rewrite Hplain, Hcls in Ht.
  apply bind_inv in Ht as (data0 & w1 & Hn & Ht). injection Ht as <- <-.
  unfold Inspect.Node_to_dict in Hn.
  erewrite bind_ok in Hn; [|by apply deref_ok].
  apply bind_inv in Hn as (context & w2 & Hx & Hn).
  pose proof (ok_unchanged _ _ _ _ (unchanged_getattr_strict _ _) Hx) as ->.
  apply bind_inv in Hn as (data1 & w3 & Hcopy & Hn).
  assert (w3 = w) as ->.
  { eapply ok_unchanged; [|exact Hcopy].
    apply unchanged_copy_attrs, unchanged_to_dict. }
  eapply (copy_attrs_get _ _ me _ _ _ _ _ k) in Hcopy as [_ Hin];
    [|apply unchanged_to_dict|done|].
  2:{ apply (bool_decide_unpack _). by vm_compute. }
  specialize (Hin Hk).
  assert (k <> "next" /\ k <> "type" /\ k <> "context") as (Hn1 & Hn2 & Hn3).
  { repeat (apply elem_of_cons in Hk as [->|Hk]; [done|]).
    by apply elem_of_nil in Hk. }
  assert (dict_get k [("type", dstr (Inspect.class_name self me));
                      ("context", DAttr context)] = None) as Hnone.
  { simpl. by rewrite !decide_False by done. }
  rewrite Hnone in Hin.
  apply bind_inv in Hn as (n & w4 & _ & Hn). destruct (is_none n).
  - by injection Hn as <- <-.
  - apply bind_inv in Hn as (name & w5 & _ & Hn). injection Hn as <- <-.
    by rewrite dict_get_set_ne.
Qed.
End InspectAttributes.

Section InspectTotal.
Context `{RandomGen} `{Naming}.

Lemma copy_attrs_flat call self me keys data w :
  heap w !! self = Some me ->
  (forall k l', k ∈ keys -> dict me !! k <> Some (ANode l')) ->
  exists data', Inspect.copy_attrs call self keys data w = (Ok data', w).
Proof.
  intros Hself. revert data.
  induction keys as [|k keys IH]; intros data Hflat; simpl.
  - by exists data.
  - rewrite (bind_ok _ _ _ _ _ (getattr_ok self k (AVal VNone) me w Hself)).
    assert (forall k0 l', k0 ∈ keys -> dict me !! k0 <> Some (ANode l'))
      as Hrest by (intros k0 l' Hk0; apply Hflat; by right).
    destruct (dict me !! k) as [[v|g|l]|] eqn:Hk; simpl.
    + destruct v; simpl; unfold bind, ret; simpl; by apply IH.
    + unfold bind, ret; simpl. by apply IH.
    + exfalso. apply (Hflat k l); [by left|done].
    + by apply IH.
Qed.

Lemma Node_to_dict_flat call self w :
  flat (heap w) self ->
  exists data, Inspect.Node_to_dict call self w = (Ok data, w).
Proof.
  intros (me & Hself & _ & [context Hc] & Hflat).
  unfold Inspect.Node_to_dict.
  erewrite bind_ok; [|by apply deref_ok].
  erewrite bind_ok;
    [|unfold getattr_strict; erewrite bind_ok; [|by apply deref_ok];
      by rewrite Hc].
  destruct (copy_attrs_flat call self me
              ["id"; "weight"; "condition"; "validation"]
              [("type", dstr (Inspect.class_name self me));
               ("context", DAttr context)] w Hself) as [data Hcopy].
  { intros k l' Hk. apply Hflat. unfold attribute_keys.
    repeat (apply elem_of_cons in Hk as [->|Hk];
            [apply (bool_decide_unpack _); by vm_compute|]).
    by apply elem_of_nil in Hk. }
  erewrite bind_ok; [|exact Hcopy].
  rewrite (bind_ok _ _ _ _ _
             (getattr_ok self "next" (AVal VNone) me w Hself)).
  assert (forall l', dict me !! "next" <> Some (ANode l')) as Hnext.
  { intros l'. apply Hflat. apply (bool_decide_unpack _). by vm_compute. }
  destruct (dict me !! "next") as [[v|g|l]|]; simpl.
  - destruct v; simpl; by eexists.
  - by eexists.
  - by destruct (Hnext l).
  - by eexists.
Qed.

Lemma list_comp_ok {A B} (f : A -> M B) (l : list A) w :
  Forall (fun x => exists y, f x w = (Ok y, w)) l ->
  exists ys, Inspect.list_comp f l w = (Ok ys, w).
Proof.
  induction 1 as [|x l [y Hy] _ [ys IH]]; simpl; [by eexists|].
  erewrite bind_ok; [|exact Hy]. erewrite bind_ok; [|exact IH].
  by eexists.
Qed.

(** X22. [to_dict] returns a dictionary for every object that is flat,
    provided it returns one for each of its members: given one more
    level of stack than its members need, it raises nothing. *)
Theorem to_dict_returns (depth : nat) (self : loc) (me : node) (w : world) :
  heap w !! self = Some me ->
  flat (heap w) self ->
  (forall ms, members_of me = Some ms ->
     Forall (fun m => exists d, Inspect.to_dict depth m w = (Ok d, w)) ms) ->
  exists data, Inspect.to_dict (S depth) self w = (Ok (DDict data), w).
Proof.
  intros Hself Hflat Hms.
  pose proof Hflat as (me' & Hme & Hplain & _).
  rewrite Hself in Hme. injection Hme as <-.
  simpl. erewrite bind_ok; [|by apply deref_ok]. rewrite Hplain.
  destruct (Node_to_dict_flat (Inspect.to_dict depth) self w Hflat)
    as [data0 Hn].
  pose proof Hn as Hshape.
  apply Node_to_dict_shape in Hshape
    as (me2 & context & tail & Hme2 & _ & -> & _).
  rewrite Hself in Hme2. injection Hme2 as <-.
  destruct (cls me) as [a o|nodes s|nodes r] eqn:Hcls.
  - erewrite bind_ok; [|exact Hn]. by eexists.
  - destruct (list_comp_ok (Inspect.to_dict depth) nodes w) as [ds Hds].
    { apply Hms. unfold members_of. by rewrite Hcls. }
    unfold Inspect.BranchNode_to_dict.
    erewrite bind_ok; [by eexists|].
    erewrite bind_ok; [|exact Hn].
    erewrite bind_ok; [|apply del_context_after_type].
    erewrite bind_ok; [|by apply deref_ok]. rewrite Hcls.
    erewrite bind_ok; [|exact Hds]. done.
  - destruct (list_comp_ok (Inspect.to_dict depth) nodes w) as [ds Hds].
    { apply Hms. unfold members_of. by rewrite Hcls. }
    unfold Inspect.Pipeline_to_dict.
    erewrite bind_ok; [by eexists|].
    erewrite bind_ok; [|exact Hn].
    erewrite bind_ok; [|apply del_context_after_type].
    erewrite bind_ok; [|by apply deref_ok]. rewrite Hcls.
    erewrite bind_ok; [|exact Hds]. done.
Qed.

(** X23. A flat branch or pipeline that is its own first member has no
    dictionary: whatever the room on the stack, [to_dict] ends in a
    [RecursionError]. *)
Theorem to_dict_of_a_loop (depth : nat) (self : loc) (me : node)
        (rest : list loc) (w : world) :
  heap w !! self = Some me ->
  flat (heap w) self ->
  members_of me = Some (self :: rest) ->
  fst (Inspect.to_dict depth self w) = Raise RecursionError.
Proof.
  intros Hself Hflat Hms.
  pose proof Hflat as (me' & Hme & Hplain & _).
  rewrite Hself in Hme. injection Hme as <-.
  induction depth as [|depth IH]; [done|].
  simpl. erewrite bind_ok; [|by apply deref_ok]. rewrite Hplain.
  destruct (Node_to_dict_flat (Inspect.to_dict depth) self w Hflat)
    as [data0 Hn].
  pose proof Hn as Hshape.
  apply Node_to_dict_shape in Hshape
    as (me2 & context & tail & Hme2 & _ & -> & _).
  rewrite Hself in Hme2. injection Hme2 as <-.
  assert (forall B (k : list descr -> M B),
            fst (bind (Inspect.list_comp (Inspect.to_dict depth)
                                         (self :: rest)) k w) =
            Raise RecursionError) as Hloop.
  { intros B k. simpl. unfold bind.
    destruct (Inspect.to_dict depth self w) as [r w1]. simpl in IH.
    by subst r. }
  unfold members_of in Hms.
  destruct (cls me) as [a o|nodes s|nodes r] eqn:Hcls; [done| |];
    injection Hms as ->.
  - unfold Inspect.BranchNode_to_dict. unfold bind at 1.
    erewrite bind_ok; [|exact Hn].
    erewrite bind_ok; [|apply del_context_after_type].
    erewrite bind_ok; [|by apply deref_ok]. rewrite Hcls.
    specialize (Hloop _ (fun ds =>
      ret (dict_update [("strategy", DAttr (AVal (VInt s)));
                        ("nodes", DList ds)]
                       (("type", dstr (Inspect.class_name self me))
                        :: tail)))).
    destruct (bind _ _ w) as [r1 w1]. simpl in Hloop. by subst r1.
  - unfold Inspect.Pipeline_to_dict. unfold bind at 1.
    erewrite bind_ok; [|exact Hn].
    erewrite bind_ok; [|apply del_context_after_type].
    erewrite bind_ok; [|by apply deref_ok]. rewrite Hcls.
    specialize (Hloop _ (fun ds =>
      ret (dict_update [("running", DAttr (AVal (VBool r)));
                        ("nodes", DList ds)]
                       (("type", dstr (Inspect.class_name self me))
                        :: tail)))).
    destruct (bind _ _ w) as [r1 w1]. simpl in Hloop. by subst r1.
Qed.
End InspectTotal.

(** ** BranchNode.select: where SELECT_RANDOM takes its randomness *)

Section GeneratorState.
Context `{RandomGen}.

(** C8, as the code has it.  Nothing that a branch is built from
    ([nodes], [strategy], [id]) or that [select] is called with is a
    seed.  Under SELECT_RANDOM the child returned is the valid candidate
    at the position that the process-wide generator draws from the state
    it is in when [select] is called, and the call moves that generator
    to its next state.  So two calls on a branch that start from the
    same state of that generator, over unchanged candidates, return the
    same child (or both nothing, or both raise the same), whatever else
    differs between them: the [id] of the branch, the other objects, the
    checkers invoked so far. *)
Theorem select_random_same_generator_state (self : loc) (me1 me2 : node)
        (nodes : list loc) (w1 w2 : world) :
  heap w1 !! self = Some me1 ->
  cls me1 = IsBranchNode nodes BranchNode.SELECT_RANDOM ->
  heap w2 !! self = Some me2 ->
  cls me2 = IsBranchNode nodes BranchNode.SELECT_RANDOM ->
  Forall (fun l => heap w2 !! l = heap w1 !! l) nodes ->
  rng w2 = rng w1 ->
  fst (BranchNode.select self w2) = fst (BranchNode.select self w1) /\
  forall valid_nodes,
    fst (BranchNode.filter_valid nodes [] w1) = Ok valid_nodes ->
    valid_nodes <> [] ->
    exists chosen,
      valid_nodes !! fst (randbelow (rng w1) (length valid_nodes)) =
        Some chosen /\
      fst (BranchNode.select self w1) = Ok (Some chosen) /\
      fst (BranchNode.select self w2) = Ok (Some chosen) /\
      rng (snd (BranchNode.select self w1)) =
        snd (randbelow (rng w1) (length valid_nodes)) /\
      rng (snd (BranchNode.select self w2)) =
        snd (randbelow (rng w1) (length valid_nodes)).
Proof.
  intros H1 Hc1 H2 Hc2 Hsame Hrng.
  pose proof (filter_valid_local nodes [] w1 w2 Hsame) as Hfst.
  pose proof (filter_valid_rng nodes [] w1) as Hr1.
  pose proof (filter_valid_rng nodes [] w2) as Hr2.
  destruct (BranchNode.filter_valid nodes [] w1) as [r1 w1'] eqn:Hf1.
  destruct (BranchNode.filter_valid nodes [] w2) as [r2 w2'] eqn:Hf2.
  simpl in Hfst, Hr1, Hr2. subst r2. rewrite Hrng in Hr2.
  split.
  - destruct r1 as [valid_nodes|e].
    + rewrite (select_of_filter _ _ _ _ _ _ _ H1 Hc1 Hf1).
      rewrite (select_of_filter _ _ _ _ _ _ _ H2 Hc2 Hf2).
      destruct valid_nodes as [|first rest]; [done|]. simpl.
      unfold bind, random_choice. rewrite Hr1, Hr2.
      destruct (randbelow (rng w1) (length (first :: rest))) as [i s'].
      by destruct ((first :: rest) !! i).
    + unfold BranchNode.select.
      erewrite !bind_ok; [|by apply deref_ok|by apply deref_ok].
      rewrite Hc1, Hc2. unfold bind. by rewrite Hf1, Hf2.
  - intros valid_nodes Hv Hne. simpl in Hv. subst r1.
    destruct (select_random_draw self me1 nodes valid_nodes w1 w1'
                H1 Hc1 Hf1 Hne) as (c1 & Hi1 & Hs1).
    destruct (select_random_draw self me2 nodes valid_nodes w2 w2'
                H2 Hc2 Hf2 Hne) as (c2 & Hi2 & Hs2).
    rewrite Hr1 in Hi1, Hs1. rewrite Hr2 in Hi2, Hs2.
    assert (c2 = c1) as -> by congruence.
    exists c1. rewrite Hs1, Hs2. by repeat split.
Qed.
End GeneratorState.

(** ** BranchNode.select: chance and repetition *)

Section ChanceProperties.
Context `{RandomGen}.

(** X24. Under SELECT_RANDOM with some valid candidate, [select] raises
    nothing and returns one of the valid candidates, the one at the
    position the generator draws; it moves the generator to its next
    state and leaves the objects and the invocation log as the filter
    left them. *)
Theorem select_random_picks_valid (self : loc) (me : node)
        (nodes valid_nodes : list loc) (w w' : world) :
  heap w !! self = Some me ->
  cls me = IsBranchNode nodes BranchNode.SELECT_RANDOM ->
  BranchNode.filter_valid nodes [] w = (Ok valid_nodes, w') ->
  valid_nodes <> [] ->
  exists chosen,
    chosen ∈ valid_nodes /\
    valid_nodes !! fst (randbelow (rng w') (length valid_nodes)) =
      Some chosen /\
    BranchNode.select self w =
      (Ok (Some chosen),
       mkWorld (heap w')
               (snd (randbelow (rng w') (length valid_nodes)))
               (calls w')).
Proof.
  intros Hself Hcls Hf Hne.
  destruct (select_random_draw self me nodes valid_nodes w w'
              Hself Hcls Hf Hne) as (chosen & Hi & Hs).
  exists chosen. split; [by eapply list_elem_of_lookup_2|done].
Qed.

(** X25. Under SELECT_FIRST and SELECT_BEST, and under a strategy that is
    none of the three, [select] leaves the objects and the generator as
    they were, and a second call returns what the first call
    returned. *)
Theorem select_again_returns_the_same (self : loc) (me : node)
        (nodes : list loc) (strategy : Z) (w : world) :
  heap w !! self = Some me ->
  cls me = IsBranchNode nodes strategy ->
  strategy <> BranchNode.SELECT_RANDOM ->
  heap (snd (BranchNode.select self w)) = heap w /\
  rng (snd (BranchNode.select self w)) = rng w /\
  fst (BranchNode.select self (snd (BranchNode.select self w))) =
    fst (BranchNode.select self w).
Proof.
  intros Hself Hcls Hs.
  split; [apply (readonly_heap true), readonly_select|].
  split; [|by eapply select_repeatable].
  unfold BranchNode.select.
  erewrite bind_ok; [|by apply deref_ok]. rewrite Hcls.
  destruct (readonly_select_body nodes strategy w w eq_refl eq_refl)
    as (_ & _ & _ & Hkeep).
  apply Hkeep. by apply Z.eqb_neq.
Qed.
End ChanceProperties.

(** ** The further properties at concrete objects *)

Lemma ping_true_iff_all_members_witness :
  fst (ping 2 5 (fresh_world probe_graph 0)) = Ok true <->
  Forall (fun m => fst (ping 1 m (fresh_world probe_graph 0)) = Ok true)
         [1; 3].
Proof.
  apply (ping_true_iff_all_members 1 5
           (BranchNode.init [1; 3] BranchNode.SELECT_FIRST None) [1; 3]
           (fresh_world probe_graph 0)); reflexivity.
Defined.

Lemma ping_false_iff_first_failure_witness :
  fst (ping 2 4 (fresh_world probe_graph 0)) = Ok false <->
  exists i m, [1; 2; 3] !! i = Some m /\
    fst (ping 1 m (fresh_world probe_graph 0)) = Ok false /\
    forall j m', j < i -> [1; 2; 3] !! j = Some m' ->
                 fst (ping 1 m' (fresh_world probe_graph 0)) = Ok true.
Proof.
  apply (ping_false_iff_first_failure 1 4 (Pipeline.init [1; 2; 3] None)
           [1; 2; 3] (fresh_world probe_graph 0)); reflexivity.
Defined.

Lemma ping_of_a_loop_witness :
  fst (ping 50 1 (fresh_world looping_graph 0)) = Raise RecursionError.
Proof.
  apply (ping_of_a_loop 50 1 (Pipeline.init [1; 2] None) [2]
           (fresh_world looping_graph 0)); reflexivity.
Defined.

Lemma init_stores_named_arguments_witness :
  Node.init (AVal (VDict [])) None (Some closed_gate) None (Some 7%Z) None
            [("_weight_", AVal (VInt 3))] !! "weight" =
    Some (AVal (VInt 7)) /\
  Node.init (AVal (VDict [])) None (Some closed_gate) None (Some 7%Z) None
            [("_weight_", AVal (VInt 3))] !! "id" = None.
Proof.
  pose proof (init_stores_named_arguments (AVal (VDict [])) None
                (Some closed_gate) None (Some 7%Z) None
                [("_weight_", AVal (VInt 3))]) as Hinit.
  destruct Hinit as (_ & Hid & _ & _ & Hweight & _).
  - repeat constructor. apply (bool_decide_unpack _). by vm_compute.
  - split; [exact Hweight|exact Hid].
Defined.

Lemma init_stores_extra_arguments_witness :
  Node.init (AVal (VDict [])) None (Some closed_gate) None (Some 7%Z) None
            [("_weight_", AVal (VInt 3))] !! "_weight_" =
    Some (AVal (VInt 3)) /\
  Node.init (AVal (VDict [])) None (Some closed_gate) None (Some 7%Z) None
            [("_weight_", AVal (VInt 3))] !! "_condition_" = None.
Proof.
  pose proof (init_stores_extra_arguments (AVal (VDict [])) None
                (Some closed_gate) None (Some 7%Z) None
                [("_weight_", AVal (VInt 3))]) as Hinit.
  destruct Hinit as (Hextra & Hnone).
  - apply (bool_decide_unpack _). by vm_compute.
  - split.
    + apply Hextra. constructor.
    + apply Hnone; apply (bool_decide_unpack _); by vm_compute.
Defined.

Lemma filter_keeps_passing_children_witness :
  exists w',
    BranchNode.filter_valid [1; 2; 3] [] (fresh_world (gated_graph 0) 0) =
      (Ok [2; 3], w') /\
    heap w' = gated_graph 0 /\ rng w' = 0.
Proof.
  apply (filter_keeps_passing_children [1; 2; 3]
           (fresh_world (gated_graph 0) 0)).
  repeat constructor; by eexists.
Defined.

Lemma select_first_finds_passing_witness :
  fst (BranchNode.select 4 (fresh_world (gated_graph 0) 0)) = Ok (Some 2).
Proof.
  apply (select_first_finds_passing 4 (BranchNode.init [1; 2; 3] 0 None)
           [1; 2; 3] (fresh_world (gated_graph 0) 0));
    [reflexivity|reflexivity|].
  repeat constructor; by eexists.
Defined.

Lemma select_raises_at_first_failing_child_witness :
  BranchNode.filter_valid [1] [] (fresh_world failing_graph 0) =
    (Ok [1], @mkWorld counter_gen failing_graph 0 [0]) /\
  BranchNode.select 4 (fresh_world failing_graph 0) =
    (Raise (TypeError "object is not callable"),
     @mkWorld counter_gen failing_graph 0 [0]) /\
  fst (BranchNode.filter_valid [3] [] (fresh_world failing_graph 0)) =
    Ok [] /\
  calls (snd (BranchNode.filter_valid [3] []
                (fresh_world failing_graph 0))) = [0].
Proof.
  destruct (select_raises_at_first_failing_child 4
              (BranchNode.init [1; 2; 3] BranchNode.SELECT_FIRST None)
              [1] [3] 2 BranchNode.SELECT_FIRST
              (TypeError "object is not callable")
              (fresh_world failing_graph 0))
    as (w1 & Hpre & _ & _ & Hstop);
    [reflexivity|reflexivity|repeat constructor; by eexists|reflexivity|].
  assert (w1 = @mkWorld counter_gen failing_graph 0 [0]) as Hw1.
  { pose proof (f_equal snd Hpre) as Hw. cbn [snd] in Hw.
    rewrite <- Hw. reflexivity. }
  rewrite Hw1 in Hpre, Hstop.
  split; [exact Hpre|]. split; [exact Hstop|]. split; reflexivity.
Defined.

Lemma select_returns_a_child_witness :
  exists me nodes strategy,
    small_graph 1 !! 3 = Some me /\
    cls me = IsBranchNode nodes strategy /\ 1 ∈ nodes.
Proof.
  apply (select_returns_a_child 3 1 (fresh_world (small_graph 1) 0)
           (@mkWorld counter_gen (small_graph 1) 1 [])).
  reflexivity.
Defined.

Lemma select_best_by_weight_witness :
  exists best,
    BranchNode.select 4 (fresh_world keyed_branch 0) =
      (Ok (Some best), fresh_world keyed_branch 0) /\
    earliest_max (weight_of keyed_branch) [1; 2; 3] best.
Proof.
  apply (select_best_by_weight 4
           (BranchNode.init [1; 2; 3] BranchNode.SELECT_BEST None)
           [1; 2; 3] [1; 2; 3] (fresh_world keyed_branch 0)
           (fresh_world keyed_branch 0));
    [reflexivity|reflexivity|reflexivity|discriminate|].
  repeat constructor.
  - exists (keyed_leaf 3). split; [reflexivity|]. right. by exists 3%Z.
  - exists (keyed_leaf 7). split; [reflexivity|]. right. by exists 7%Z.
  - exists (keyed_leaf 7). split; [reflexivity|]. right. by exists 7%Z.
Defined.

Lemma select_best_single_candidate_witness :
  BranchNode.select 4 (fresh_world odd_weights 0) =
  (Ok (Some 2), fresh_world odd_weights 0).
Proof.
  apply (select_best_single_candidate 4 2
           (BranchNode.init [2] BranchNode.SELECT_BEST None)
           unweighted_leaf [2] (fresh_world odd_weights 0)
           (fresh_world odd_weights 0)); reflexivity.
Defined.

Lemma select_best_none_weight_witness :
  BranchNode.select 3 (fresh_world odd_weights 0) =
  (Raise (TypeError "'>' not supported between instances"),
   fresh_world odd_weights 0).
Proof.
  apply (select_best_none_weight 3 1 2
           (BranchNode.init [1; 2] BranchNode.SELECT_BEST None)
           (keyed_leaf 3) unweighted_leaf [1; 2] []
           (fresh_world odd_weights 0) (fresh_world odd_weights 0));
    reflexivity.
Defined.

Lemma start_pause_last_wins_witness :
  snd (Pipeline.pause 4
         (snd (Pipeline.start 4 (fresh_world (small_graph 0) 0)))) =
    snd (Pipeline.pause 4 (fresh_world (small_graph 0) 0)) /\
  snd (Pipeline.pause 4 (fresh_world (small_graph 0) 0)) =
    fresh_world (small_graph 0) 0.
Proof.
  pose proof (start_pause_last_wins 4 (Pipeline.init [1] None) [1] false
                (fresh_world (small_graph 0) 0) eq_refl eq_refl)
    as (Hundo & _ & _ & _ & Hsame).
  split; [exact Hundo|exact Hsame].
Defined.

Lemma select_random_same_generator_state_witness :
  exists chosen,
    [1; 2] !! fst (@randbelow counter_gen 5 2) = Some chosen /\
    fst (BranchNode.select 3 (@mkWorld counter_gen (small_graph 1) 5 []))
      = Ok (Some chosen) /\
    fst (BranchNode.select 3
           (@mkWorld counter_gen labelled_graph 5 [3; 1; 4]))
      = Ok (Some chosen) /\
    rng (snd (BranchNode.select 3
                (@mkWorld counter_gen (small_graph 1) 5 []))) =
      snd (@randbelow counter_gen 5 2) /\
    rng (snd (BranchNode.select 3
                (@mkWorld counter_gen labelled_graph 5 [3; 1; 4]))) =
      snd (@randbelow counter_gen 5 2).
Proof.
  apply (proj2 (select_random_same_generator_state 3
                  (BranchNode.init [1; 2] BranchNode.SELECT_RANDOM None)
                  (BranchNode.init [1; 2] BranchNode.SELECT_RANDOM
                                   (Some (AVal (VInt 42))))
                  [1; 2]
                  (@mkWorld counter_gen (small_graph 1) 5 [])
                  (@mkWorld counter_gen labelled_graph 5 [3; 1; 4])
                  eq_refl eq_refl eq_refl eq_refl
                  ltac:(repeat constructor) eq_refl)
               [1; 2]);
    [reflexivity|discriminate].
Defined.

Lemma select_random_picks_valid_witness :
  exists chosen,
    chosen ∈ [1; 2] /\
    [1; 2] !! fst (@randbelow counter_gen 0 2) = Some chosen /\
    BranchNode.select 3 (fresh_world (small_graph 1) 0) =
      (Ok (Some chosen), @mkWorld counter_gen (small_graph 1) 1 []).
Proof.
  apply (select_random_picks_valid 3 (BranchNode.init [1; 2] 1 None)
           [1; 2] [1; 2] (fresh_world (small_graph 1) 0)
           (fresh_world (small_graph 1) 0));
    [reflexivity|reflexivity|reflexivity|discriminate].
Defined.

Lemma select_again_returns_the_same_witness :
  fst (BranchNode.select 4
         (snd (BranchNode.select 4 (fresh_world (gated_graph 0) 0)))) =
  fst (BranchNode.select 4 (fresh_world (gated_graph 0) 0)).
Proof.
  pose proof (select_again_returns_the_same 4
                (BranchNode.init [1; 2; 3] 0 None) [1; 2; 3] 0%Z
                (fresh_world (gated_graph 0) 0) eq_refl eq_refl)
    as (_ & _ & Hagain); [discriminate|exact Hagain].
Defined.

Lemma leaf_to_dict_keys_witness :
  exists context tail,
    dict shut_leaf !! "context" = Some context /\
    DDict [("type", dstr "Leaf");
           ("context", DAttr (AVal (VCallable (fun _ => VDict []))))] =
    DDict (("type", dstr "Leaf") :: ("context", DAttr context) :: tail) /\
    forall x, x ∈ tail.*1 -> x ∈ attribute_keys.
Proof.
  apply (@leaf_to_dict_keys counter_gen plain_naming 0 1 shut_leaf true []
           (DDict [("type", dstr "Leaf");
                   ("context",
                    DAttr (AVal (VCallable (fun _ => VDict []))))])
           (fresh_world shut_branch 0) (fresh_world shut_branch 0));
    reflexivity.
Defined.

Lemma pipeline_to_dict_shape_witness :
  exists tail ds,
    DDict [("type", dstr "Pipeline");
           ("running", DAttr (AVal (VBool false)));
           ("nodes", DList [DDict [("type", dstr "Leaf");
                                   ("context", DAttr (AVal (VDict [])))]])] =
    DDict (("type", dstr "Pipeline") :: tail ++
           [("running", DAttr (AVal (VBool false))); ("nodes", DList ds)]) /\
    (forall x, x ∈ tail.*1 -> x ∈ attribute_keys) /\
    Forall2 (fun m dm =>
               @Inspect.to_dict counter_gen plain_naming 1 m
                 (fresh_world (small_graph 0) 0) =
               (Ok dm, fresh_world (small_graph 0) 0)) [1] ds /\
    @Inspect.Pipeline_info counter_gen plain_naming 2 4
      (fresh_world (small_graph 0) 0) =
    (Ok (DDict (("type", dstr "pipeline") :: tail ++
                [("running", DAttr (AVal (VBool false)));
                 ("nodes", DList ds)])),
     fresh_world (small_graph 0) 0).
Proof.
  apply (@pipeline_to_dict_shape counter_gen plain_naming 1 4
           (Pipeline.init [1] None) [1] false _
           (fresh_world (small_graph 0) 0) (fresh_world (small_graph 0) 0));
    reflexivity.
Defined.

Lemma branch_to_dict_shape_witness :
  exists tail ds,
    DDict [("type", dstr "BranchNode");
           ("strategy", DAttr (AVal (VInt 0)));
           ("nodes", DList [DDict [("type", dstr "Leaf");
                                   ("context", DAttr (AVal (VDict [])))];
                            DDict [("type", dstr "Leaf");
                                   ("context", DAttr (AVal (VDict [])))]])] =
    DDict (("type", dstr "BranchNode") :: tail ++
           [("strategy", DAttr (AVal (VInt 0))); ("nodes", DList ds)]) /\
    (forall x, x ∈ tail.*1 -> x ∈ attribute_keys) /\
    Forall2 (fun m dm =>
               @Inspect.to_dict counter_gen plain_naming 1 m
                 (fresh_world (small_graph 0) 0) =
               (Ok dm, fresh_world (small_graph 0) 0)) [1; 2] ds /\
    @Inspect.BranchNode_info counter_gen plain_naming 2 3
      (fresh_world (small_graph 0) 0) =
    (Ok (DDict (("type", dstr "branch") :: tail ++
                [("strategy", DAttr (AVal (VInt 0)));
                 ("nodes", DList ds)])),
     fresh_world (small_graph 0) 0).
Proof.
  apply (@branch_to_dict_shape counter_gen plain_naming 1 3
           (BranchNode.init [1; 2] 0 None) [1; 2] 0%Z _
           (fresh_world (small_graph 0) 0) (fresh_world (small_graph 0) 0));
    reflexivity.
Defined.

Lemma leaf_to_dict_attributes_witness :
  dict_get "condition"
    [("type", dstr "Leaf"); ("context", DAttr (AVal (VDict [])));
     ("condition", @Inspect.Gate_to_dict plain_naming closed_gate)] =
  Some (@Inspect.Gate_to_dict plain_naming closed_gate).
Proof.
  apply (@leaf_to_dict_attributes counter_gen plain_naming 0 1 gated_leaf
           true []
           [("type", dstr "Leaf"); ("context", DAttr (AVal (VDict [])));
            ("condition", @Inspect.Gate_to_dict plain_naming closed_gate)]
           "condition" (fresh_world gated_branch 0)
           (fresh_world gated_branch 0));
    try reflexivity.
  apply (bool_decide_unpack _). by vm_compute.
Defined.

Ltac flat_object n :=
  exists n; split; [reflexivity|]; split; [reflexivity|];
  split; [by eexists|];
  let k := fresh "k" in
  let l := fresh "l" in
  let Hk := fresh "Hk" in
  intros k l Hk; unfold attribute_keys in Hk;
  repeat (apply elem_of_cons in Hk as [->|Hk]; [by vm_compute|]);
  by apply elem_of_nil in Hk.

Lemma to_dict_returns_witness :
  exists data,
    @Inspect.to_dict counter_gen plain_naming 2 4
      (fresh_world (small_graph 0) 0) =
    (Ok (DDict data), fresh_world (small_graph 0) 0).
Proof.
  apply (@to_dict_returns counter_gen plain_naming 1 4
           (Pipeline.init [1] None) (fresh_world (small_graph 0) 0)).
  - reflexivity.
  - flat_object (Pipeline.init [1] None).
  - intros ms [= <-]. repeat constructor. by eexists.
Defined.

Lemma to_dict_of_a_loop_witness :
  fst (@Inspect.to_dict counter_gen plain_naming 50 1
         (fresh_world looping_graph 0)) = Raise RecursionError.
Proof.
  apply (@to_dict_of_a_loop counter_gen plain_naming 50 1
           (Pipeline.init [1; 2] None) [2] (fresh_world looping_graph 0)).
  - reflexivity.
  - flat_object (Pipeline.init [1; 2] None).
  - reflexivity.
Defined.
